(** * TaskFlow: the agent command interpreter and the focus session

    A shallow embedding of the parts of the TaskFlow sources that carry
    behaviour worth verifying:

    - [services/geminiService.ts]: [generateStepsForTask] and the tool-call
      loop of [processAgentCommand];
    - [components/CompanionChat.tsx]: how the result of
      [processAgentCommand] reaches the task list ([handleSend]);
    - [components/FocusMode.tsx]: the component state, its two effects,
      [toggleStep], and the arrival of generated steps;
    - [App.tsx]: [handleCompleteTask].

    JavaScript strings are modelled as [string], integers coming from the
    tool schema ([Type.INTEGER]) as [Z], arrays as [list], and a value that
    may be [undefined] as [option]. *)

From Stdlib Require Import ZArith String Ascii Lia.
From stdpp Require Import base list strings pretty.

Open Scope Z_scope.

(** ** JavaScript string built-ins *)

Module JS.

(** [String.prototype.includes]: [needle] occurs in [s] at some offset. *)
Fixpoint includes (s needle : string) : bool :=
  String.prefix needle s ||
  match s with
  | EmptyString => false
  | String _ s' => includes s' needle
  end.

(** [String.prototype.toLowerCase] is a built-in of the host language, not
    code of the repository.  The development is parametric in it; the only
    fact it relies on is that the empty string is mapped to itself. *)
Class LowerCase := {
  toLowerCase : string → string;
  toLowerCase_empty : toLowerCase EmptyString = EmptyString;
}.

(** Lower-casing of the ASCII letters, which is what [toLowerCase] does on
    ASCII text.  Used to run the model on concrete inputs. *)
Definition lowerAscii (c : ascii) : ascii :=
  let n := nat_of_ascii c in
  if (65 <=? n)%nat && (n <=? 90)%nat then ascii_of_nat (n + 32) else c.

Fixpoint lowerString (s : string) : string :=
  match s with
  | EmptyString => EmptyString
  | String c s' => String (lowerAscii c) (lowerString s')
  end.

#[export] Instance asciiLowerCase : LowerCase :=
  {| toLowerCase := lowerString; toLowerCase_empty := eq_refl |}.

(** The double-quote character of a template literal. *)
Definition dquote : string := String (ascii_of_nat 34) EmptyString.

(** [a || b] on strings: the empty string is falsy. *)
Definition orElse (a : option string) (b : string) : string :=
  match a with
  | Some (String c s) => String c s
  | _ => b
  end.

End JS.

Import JS.

(** ** Data model ([types.ts]) *)

Inductive SubjectType := MATH | LANGUAGE | SCIENCE | ART | OTHER.

(** The string value of each member of the [SubjectType] enum. *)
Definition subjectValue (s : SubjectType) : string :=
  match s with
  | MATH => "Math"
  | LANGUAGE => "Language"
  | SCIENCE => "Science"
  | ART => "Art"
  | OTHER => "Other"
  end.

Record TaskStep := mkStep {
  step_id : string;
  step_text : string;
  isCompleted : bool;
}.

Inductive TaskStatus := pending | active | completed.

Record Task := mkTask {
  task_id : string;
  title : string;
  subject : SubjectType;
  estimatedMinutes : Z;
  steps : list TaskStep;
  status : TaskStatus;
  createdAt : Z;
}.

#[export] Instance TaskStatus_eq_dec : EqDecision TaskStatus.
Proof. solve_decision. Defined.

(** [{ ...t, estimatedMinutes: m }] *)
Definition withEstimatedMinutes (t : Task) (m : Z) : Task :=
  mkTask (task_id t) (title t) (subject t) m (steps t) (status t) (createdAt t).

(** [{ ...t, status: 'completed' }] *)
Definition withStatus (t : Task) (st : TaskStatus) : Task :=
  mkTask (task_id t) (title t) (subject t) (estimatedMinutes t) (steps t) st
    (createdAt t).

(** [{ ...s, isCompleted: !s.isCompleted }] *)
Definition flipCompleted (s : TaskStep) : TaskStep :=
  mkStep (step_id s) (step_text s) (negb (isCompleted s)).

(** ** Step generation ([generateStepsForTask]) *)

Module StepGen.

(** What the awaited [ai.models.generateContent] call does: it throws, or
    it yields a response whose [text] may be [undefined]. *)
Inductive ServiceOutcome :=
  | CallThrows
  | CallReturns (text : option string).

Definition emptyTextSteps : list string := ["Start task"; "Complete task"].

Definition fallbackSteps : list string :=
  ["Prepare materials"; "Focus on the first problem";
   "Continue through the rest"; "Review work"].

Section WithParser.
(** [cleanJsonString] followed by [JSON.parse], read at the declared
    result type [string[]]; [None] stands for a [SyntaxError]. *)
Variable parseCleaned : string → option (list string).

Definition generateStepsForTask (outcome : ServiceOutcome) : list string :=
  match outcome with
  | CallThrows => fallbackSteps
  | CallReturns None => emptyTextSteps
  | CallReturns (Some EmptyString) => emptyTextSteps
  | CallReturns (Some text) =>
      match parseCleaned text with
      | Some parsed => parsed
      | None => fallbackSteps
      end
  end.
End WithParser.

End StepGen.

(** ** The agent's tool calls ([processAgentCommand]) *)

Module Agent.

(** The three declared tools, with the arguments their schemas require. *)
Inductive FunctionCall :=
  | updateTaskTime (taskKeyword : string) (newMinutes : Z)
  | reorderTask (taskKeyword : string) (newPosition : Z)
  | deleteTask (taskKeyword : string).

Definition taskKeyword (call : FunctionCall) : string :=
  match call with
  | updateTaskTime k _ | reorderTask k _ | deleteTask k => k
  end.

(** What the awaited model call does: it throws, or it yields a candidate
    with an optional text part and the list of its function calls. *)
Inductive AgentReply :=
  | AgentThrows
  | AgentReplies (text : option string) (functionCalls : list FunctionCall).

(** The three mutable locals of the loop. *)
Record LoopState := mkLoop {
  newTasks : list Task;
  responseText : string;
  tasksModified : bool;
}.

Record AgentResult := mkResult {
  res_responseText : string;
  updatedTasks : option (list Task);
}.

(** The message of the three [else] branches; it quotes [args.taskKeyword]
    as it was given, not its lower-cased form. *)
Definition notFoundText (keyword : string) : string :=
  "I couldn't find a task matching " +:+ dquote +:+ keyword +:+ dquote +:+ ".".

(** The template literals of the three success messages. [pretty] prints
    an integer as its decimal numeral, as template interpolation does. *)
Definition updatedText (t : Task) (newMinutes : Z) : string :=
  "Updated " +:+ title t +:+ " to " +:+ pretty newMinutes +:+ " minutes.".

Definition removedText (t : Task) : string :=
  "Removed " +:+ title t +:+ " from your list.".

Definition movedText (t : Task) (targetIndex : Z) : string :=
  "Moved " +:+ title t +:+ " to position #" +:+ pretty (targetIndex + 1) +:+ ".".

(** [arr.splice(i, 0, x)] for [0 <= i <= arr.length]. *)
Definition spliceIn {A} (i : nat) (x : A) (l : list A) : list A :=
  take i l ++ x :: drop i l.

(** The clamped [targetIndex] of the [reorderTask] branch; [len] is the
    length of the list after the task was spliced out. *)
Definition clampTarget (newPosition : Z) (len : nat) : Z :=
  let targetIndex := newPosition - 1 in
  let targetIndex := if targetIndex <? 0 then 0 else targetIndex in
  if targetIndex >? Z.of_nat len then Z.of_nat len else targetIndex.

Section WithLowerCase.
Context `{!LowerCase}.

(** The predicate passed to [newTasks.findIndex]. *)
Definition matchesKeyword (lowerKeyword : string) (t : Task) : bool :=
  includes (toLowerCase (title t)) lowerKeyword ||
  includes (toLowerCase (subjectValue (subject t))) lowerKeyword.

(** [findIndex()]: the first index whose task matches, together with the
    task stored there; [None] stands for [-1]. *)
Definition findIndex (lowerKeyword : string) (tasks : list Task)
  : option (nat * Task) :=
  list_find (λ t, matchesKeyword lowerKeyword t = true) tasks.

(** One iteration of the [for (const call of functionCalls)] loop.  The
    tool schema makes [taskKeyword] a required string, on which
    the fallback of [args.taskKeyword] to the empty string is the identity. *)
Definition applyCall (st : LoopState) (call : FunctionCall) : LoopState :=
  let lowerKeyword := toLowerCase (taskKeyword call) in
  match call with
  | updateTaskTime keyword newMinutes =>
      match findIndex lowerKeyword (newTasks st) with
      | Some (idx, t) =>
          let t' := withEstimatedMinutes t newMinutes in
          mkLoop (<[idx := t']> (newTasks st)) (updatedText t' newMinutes) true
      | None => mkLoop (newTasks st) (notFoundText keyword) (tasksModified st)
      end
  | deleteTask keyword =>
      match findIndex lowerKeyword (newTasks st) with
      | Some (idx, removed) =>
          mkLoop (delete idx (newTasks st)) (removedText removed) true
      | None => mkLoop (newTasks st) (notFoundText keyword) (tasksModified st)
      end
  | reorderTask keyword newPosition =>
      match findIndex lowerKeyword (newTasks st) with
      | Some (idx, taskToMove) =>
          let rest := delete idx (newTasks st) in
          let targetIndex := clampTarget newPosition (length rest) in
          mkLoop (spliceIn (Z.to_nat targetIndex) taskToMove rest)
                 (movedText taskToMove targetIndex) true
      | None => mkLoop (newTasks st) (notFoundText keyword) (tasksModified st)
      end
  end.

Definition runCalls (st : LoopState) (calls : list FunctionCall) : LoopState :=
  foldl applyCall st calls.

(** The locals as initialised before the loop. *)
Definition initLoop (text : option string) (currentTasks : list Task)
  : LoopState :=
  mkLoop currentTasks (orElse text "I've updated your plan!") false.

Definition processAgentCommand (reply : AgentReply) (currentTasks : list Task)
  : AgentResult :=
  match reply with
  | AgentThrows =>
      mkResult "Sorry, I had trouble connecting to my brain! Try again?" None
  | AgentReplies text functionCalls =>
      let st := runCalls (initLoop text currentTasks) functionCalls in
      mkResult (responseText st)
               (if tasksModified st then Some (newTasks st) else None)
  end.

(** [CompanionChat.handleSend]: the task list after the reply was handled
    ([if (result.updatedTasks) setTasks(result.updatedTasks)]; an array,
    even an empty one, is truthy). *)
Definition handleSend (reply : AgentReply) (tasks : list Task) : list Task :=
  match updatedTasks (processAgentCommand reply tasks) with
  | Some updated => updated
  | None => tasks
  end.
End WithLowerCase.

End Agent.


(** ** The focus session ([FocusMode.tsx], [App.handleCompleteTask]) *)

Module Focus.

(** The [tasks] prop, the four pieces of component state, the ref, and the
    step-generation promises that have not resolved yet (each recorded with
    the task for which it was started). *)
Record Session := mkSession {
  tasks : list Task;
  timeLeft : Z;
  isPlaying : bool;
  totalTime : Z;
  localSteps : list TaskStep;
  prevTaskIdRef : option string;
  inFlight : list Task;
}.

Definition pendingTasks (ts : list Task) : list Task :=
  filter (λ t, status t ≠ completed) ts.

(** [pendingTasks[0]] *)
Definition currentTask (s : Session) : option Task := head (pendingTasks (tasks s)).

Definition hasCurrentTask (s : Session) : bool :=
  match currentTask s with Some _ => true | None => false end.

(** The [useState] initialisers of the first render. *)
Definition initialState (ts : list Task) : Session :=
  let cur := head (pendingTasks ts) in
  let secs := match cur with Some t => estimatedMinutes t * 60 | None => 0 end in
  mkSession ts secs true secs
    (match cur with Some t => steps t | None => [] end) None [].

(** The effect on [[currentTask]]: reset the timer when the task id changed,
    and start a step-generation request when the task has no steps. *)
Definition taskEffect (s : Session) : Session :=
  match currentTask s with
  | None => s
  | Some t =>
      if decide (prevTaskIdRef s = Some (task_id t)) then s
      else
        let secs := estimatedMinutes t * 60 in
        mkSession (tasks s) secs true secs (steps t) (Some (task_id t))
          (match steps t with
           | [] => inFlight s ++ [t]
           | _ :: _ => inFlight s
           end)
  end.

(** The condition under which the timer effect installs the interval. *)
Definition intervalArmed (s : Session) : bool :=
  isPlaying s && (0 <? timeLeft s) && hasCurrentTask s.

(** The effect on [[isPlaying, timeLeft, currentTask]]. *)
Definition timerEffect (s : Session) : Session :=
  if intervalArmed s then s
  else if (timeLeft s =? 0) && hasCurrentTask s then
    mkSession (tasks s) (timeLeft s) false (totalTime s) (localSteps s)
      (prevTaskIdRef s) (inFlight s)
  else s.

(** Mounting the component: first render, then both effects. *)
Definition mount (ts : list Task) : Session :=
  timerEffect (taskEffect (initialState ts)).

(** One firing of the interval, [setTimeLeft(prev => prev - 1)], and the
    timer effect of the render it causes.  Without an installed interval
    nothing fires. *)
Definition tick (s : Session) : Session :=
  if intervalArmed s then
    timerEffect
      (mkSession (tasks s) (timeLeft s - 1) (isPlaying s) (totalTime s)
         (localSteps s) (prevTaskIdRef s) (inFlight s))
  else s.

(** The play/pause button, [setIsPlaying(!isPlaying)]. *)
Definition togglePlay (s : Session) : Session :=
  timerEffect
    (mkSession (tasks s) (timeLeft s) (negb (isPlaying s)) (totalTime s)
       (localSteps s) (prevTaskIdRef s) (inFlight s)).

Definition toggleStep (stepId : string) (s : Session) : Session :=
  mkSession (tasks s) (timeLeft s) (isPlaying s) (totalTime s)
    (map (λ st, if String.eqb (step_id st) stepId then flipCompleted st else st)
       (localSteps s))
    (prevTaskIdRef s) (inFlight s).

(** [App.handleCompleteTask] *)
Definition handleCompleteTask (taskId : string) (ts : list Task) : list Task :=
  map (λ t, if String.eqb (task_id t) taskId then withStatus t completed else t) ts.

(** The state updates that the timer effect queues when it runs in a commit
    whose render is [r], applied to the state [x] that the updates queued
    before it have produced. The effect reads [isPlaying], [timeLeft] and
    [currentTask] of the render, not of [x]. *)
Definition timerEffectOn (r x : Session) : Session :=
  if intervalArmed r then x
  else if (timeLeft r =? 0) && hasCurrentTask r then
    mkSession (tasks x) (timeLeft x) false (totalTime x) (localSteps x)
      (prevTaskIdRef x) (inFlight x)
  else x.

(** The commit of a render [r] in which [currentTask] has changed: both
    effects run and both read [r]. The updates of the task effect are
    queued first and those of the timer effect after them, so that a
    [setIsPlaying(false)] of the timer effect overrides the
    [setIsPlaying(true)] of the reset. The render of the resulting state
    runs the timer effect once more, on that state. *)
Definition commitNewTask (r : Session) : Session :=
  timerEffect (timerEffectOn r (taskEffect r)).

(** The Done button: [onCompleteTask(currentTask.id)], then the render with
    the new [tasks] prop and the old component state, and its commit. *)
Definition completeCurrent (s : Session) : Session :=
  match currentTask s with
  | None => s
  | Some t =>
      commitNewTask
        (mkSession (handleCompleteTask (task_id t) (tasks s)) (timeLeft s)
           (isPlaying s) (totalTime s) (localSteps s) (prevTaskIdRef s)
           (inFlight s))
  end.

(** [steps.map(s => ({ id: crypto.randomUUID(), text: s, isCompleted: false }))];
    [uuid i] is the identifier drawn for the [i]-th string. *)
Definition toSteps (uuid : nat → string) (generated : list string) : list TaskStep :=
  imap (λ i text, mkStep (uuid i) text false) generated.

(** The [then] callback of the [k]-th unresolved request runs with the
    strings [generateStepsForTask] produced. *)
Definition stepsArrive (k : nat) (uuid : nat → string) (generated : list string)
    (s : Session) : Session :=
  match inFlight s !! k with
  | None => s
  | Some _ =>
      mkSession (tasks s) (timeLeft s) (isPlaying s) (totalTime s)
        (toSteps uuid generated) (prevTaskIdRef s) (delete k (inFlight s))
  end.

(** The session states of the specification, read off the component state:
    no current task is [Idle]; otherwise a playing session is [Running], a
    stopped one at zero is [Expired], and any other stopped one [Paused]. *)
Inductive Phase := Idle | Running | Paused | Expired.

Definition phase (s : Session) : Phase :=
  if negb (hasCurrentTask s) then Idle
  else if isPlaying s then Running
  else if timeLeft s =? 0 then Expired
  else Paused.

End Focus.


(** ** Vocabulary of the statements *)

Module Spec.
Import Agent.

(** [needle] occurs in [s]. *)
Definition occursIn (needle s : string) : Prop :=
  ∃ pre post, s = pre +:+ needle +:+ post.

(** The call requests a positive number of minutes, when it requests any. *)
Definition positiveUpdate (call : FunctionCall) : Prop :=
  match call with
  | updateTaskTime _ newMinutes => 0 < newMinutes
  | _ => True
  end.

Definition positiveMinutes (t : Task) : Prop := 0 < estimatedMinutes t.

Section WithLowerCase.
Context `{!LowerCase}.

(** [keyword] occurs in [s] when the case of letters is ignored. *)
Definition containsIgnoringCase (s keyword : string) : Prop :=
  occursIn (toLowerCase keyword) (toLowerCase s).

(** The title or the subject of [t] contains [keyword], ignoring case. *)
Definition taskMatches (keyword : string) (t : Task) : Prop :=
  containsIgnoringCase (title t) keyword ∨
  containsIgnoringCase (subjectValue (subject t)) keyword.

(** The keyword of [call] resolves to no task of [tasks]. *)
Definition unresolved (tasks : list Task) (call : FunctionCall) : Prop :=
  findIndex (toLowerCase (taskKeyword call)) tasks = None.
End WithLowerCase.

(** The response carries no text, or an empty one. *)
Definition textMissing (outcome : StepGen.ServiceOutcome) : bool :=
  match outcome with
  | StepGen.CallReturns None => true
  | StepGen.CallReturns (Some EmptyString) => true
  | _ => false
  end.

(** The step-generation call fails: the request throws, the response
    carries no usable text, or the text it returns is rejected by the
    parser. *)
Definition callFails (parseCleaned : string → option (list string))
    (outcome : StepGen.ServiceOutcome) : Prop :=
  match outcome with
  | StepGen.CallThrows => True
  | StepGen.CallReturns None => True
  | StepGen.CallReturns (Some EmptyString) => True
  | StepGen.CallReturns (Some (String c s)) => parseCleaned (String c s) = None
  end.

End Spec.

(** ** Sample data *)

Module Sample.

Definition stepRead : TaskStep := mkStep "s1" "Read the passage" false.

Definition algebra : Task :=
  mkTask "t1" "Algebra worksheet" MATH 20 [] pending 0.

Definition essay : Task :=
  mkTask "t2" "Essay draft" LANGUAGE 30 [stepRead] pending 1.

Definition lab : Task :=
  mkTask "t3" "Lab report" SCIENCE 15 [] pending 2.

Definition uuid (i : nat) : string := "u" +:+ pretty i.

Definition noParse (_ : string) : option (list string) := None.

Definition plan : list Task := [algebra; essay; lab].

(** Two calls whose keywords occur in no task of [plan]. *)
Definition unmatchedBatch : list Agent.FunctionCall :=
  [Agent.deleteTask "zzz"; Agent.updateTaskTime "history" 5].

(** A call that matches nothing, followed by one that matches. *)
Definition mixedBatch : list Agent.FunctionCall :=
  [Agent.deleteTask "zzz"; Agent.deleteTask "algebra"].

Definition loopStart : Agent.LoopState := Agent.mkLoop plan "Sure." false.

(** Focus mode entered on a task without steps followed by one with steps,
    and the same session after the first task was marked done while its
    step-generation request is still unanswered. *)
Definition entered : Focus.Session := Focus.mount [algebra; essay].

Definition advanced : Focus.Session := Focus.completeCurrent entered.

Definition stepCheck : TaskStep := mkStep "s2" "Check spelling" true.

(** A running session on [essay] with two seconds left. *)
Definition twoSecondsLeft : Focus.Session :=
  Focus.mkSession [essay] 2 true 1800 [stepRead; stepCheck] (Some "t2") [].

End Sample.


(** ** Fenced payloads and image analysis ([cleanJsonString],
    [analyzeHomeworkImage]) *)

Module Payload.

Definition backtick : ascii := ascii_of_nat 96.

Definition newline : string := String (ascii_of_nat 10) EmptyString.

Definition fence : string := "```".

Definition fenceJson : string := "```json".

(** [str.replace(/```json\n?|```/g, '')]. The scan goes left to right; at
    each position the first alternative is tried before the second, and
    the optional newline is taken when it is there. [skip] is the number
    of characters of the current match that are still to be dropped. *)
Fixpoint replaceFences (skip : nat) (str : string) : string :=
  match str with
  | EmptyString => EmptyString
  | String c rest =>
      match skip with
      | S k => replaceFences k rest
      | O =>
          if String.prefix (fenceJson +:+ newline) str then replaceFences 7 rest
          else if String.prefix fenceJson str then replaceFences 6 rest
          else if String.prefix fence str then replaceFences 2 rest
          else String c (replaceFences 0 rest)
      end
  end.

(** [s] holds no backtick. *)
Fixpoint backtickFree (s : string) : bool :=
  match s with
  | EmptyString => true
  | String c rest => negb (Ascii.eqb c backtick) && backtickFree rest
  end.

Section WithTrim.
(** [String.prototype.trim], a built-in of the host language. *)
Variable trim : string → string.

Definition cleanJsonString (str : string) : string :=
  trim (replaceFences 0 str).
End WithTrim.

Record AITaskResponse := mkAITask {
  ai_subject : string;
  ai_title : string;
  ai_estimatedMinutes : Z;
  ai_steps : list string;
}.

Section WithParser.
(** [cleanJsonString] followed by [JSON.parse], read at the declared result
    type [AITaskResponse[]]; [None] stands for a [SyntaxError]. *)
Variable parseCleaned : string → option (list AITaskResponse).

(** [None] stands for the rethrown
    [Error("Failed to analyze homework image.")]. *)
Definition analyzeHomeworkImage (outcome : StepGen.ServiceOutcome)
  : option (list AITaskResponse) :=
  match outcome with
  | StepGen.CallThrows => None
  | StepGen.CallReturns None => Some []
  | StepGen.CallReturns (Some EmptyString) => Some []
  | StepGen.CallReturns (Some text) => parseCleaned text
  end.
End WithParser.

End Payload.

(** ** The planning screen ([Dashboard.tsx]) *)

Module Dashboard.
Import Payload.


Definition removeTask (id : string) (prev : list Task) : list Task :=
  filter (λ t, task_id t ≠ id) prev.

(** [tasks.reduce((acc, t) => acc + t.estimatedMinutes, 0)] *)
Definition totalMinutes (tasks : list Task) : Z :=
  foldl (λ acc t, acc + estimatedMinutes t) 0 tasks.




Section WithLowerCase.
Context `{!LowerCase}.

Definition mapSubject (str : string) : SubjectType :=
  let s := toLowerCase str in
  if includes s "math" then MATH
  else if includes s "lang" || includes s "english" then LANGUAGE
  else if includes s "sci" then SCIENCE
  else if includes s "art" then ART
  else OTHER.

(** The object built for one analysed task. *)
Definition toTask (uuid : string) (stepUuid : nat → string) (now : Z)
    (t : AITaskResponse) : Task :=
  mkTask uuid (ai_title t) (mapSubject (ai_subject t)) (ai_estimatedMinutes t)
    (Focus.toSteps stepUuid (ai_steps t)) pending now.

(** [handleImageCaptured] once [analyzeHomeworkImage] has settled: the new
    tasks are appended, or, when the analysis threw, an alert is shown and
    the list is left alone. *)
Definition handleImageCaptured (taskUuid : nat → string)
    (stepUuid : nat → nat → string) (now : nat → Z)
    (analysis : option (list AITaskResponse)) (prev : list Task) : list Task :=
  match analysis with
  | Some aiTasks =>
      prev ++ imap (λ i t, toTask (taskUuid i) (stepUuid i) (now i) t) aiTasks
  | None => prev
  end.
End WithLowerCase.

End Dashboard.

(** ** The chat panel ([CompanionChat.tsx]) *)

Module Chat.
Import Agent.

Section WithLowerCase.
Context `{!LowerCase}.

(** The task list after [handleSend] has received the reply.
    [processAgentCommand] was called with [snapshot], the [tasks] prop of
    the render in which the message was sent; [current] is the list at the
    moment the reply is handled. [setTasks(result.updatedTasks)] stores the
    returned list as it is. *)
Definition receiveReply (reply : AgentReply) (snapshot current : list Task)
  : list Task :=
  match updatedTasks (processAgentCommand reply snapshot) with
  | Some updated => updated
  | None => current
  end.
End WithLowerCase.

End Chat.

(** ** Runs of a focus session *)

Module Events.
Import Focus.

(** What can happen to a mounted focus session: the interval fires, the
    play button or the Done button is pressed, a step is clicked, or the
    [k]-th step-generation request in flight is answered. *)
Inductive Event :=
  | Tick
  | PlayPressed
  | StepClicked (stepId : string)
  | DonePressed
  | StepsArrived (k : nat) (uuid : nat → string) (generated : list string).

Definition handle (s : Session) (e : Event) : Session :=
  match e with
  | Tick => tick s
  | PlayPressed => togglePlay s
  | StepClicked stepId => toggleStep stepId s
  | DonePressed => completeCurrent s
  | StepsArrived k uuid generated => stepsArrive k uuid generated s
  end.

(** The session after focus mode was entered on [ts] and the events
    happened in order. *)
Definition run (ts : list Task) (events : list Event) : Session :=
  foldl handle (mount ts) events.

(** No estimate is negative. *)
Definition estimatesNonNegative (ts : list Task) : Prop :=
  Forall (λ t, 0 ≤ estimatedMinutes t) ts.

(** The remaining time lies between zero and the total time, no estimate
    of the list is negative, a playing session with a current task has
    time left, and the ref names the current task. *)
Definition settled (s : Session) : Prop :=
  0 ≤ timeLeft s ≤ totalTime s ∧
  estimatesNonNegative (tasks s) ∧
  (hasCurrentTask s = true → isPlaying s = true → 0 < timeLeft s) ∧
  (∀ t, currentTask s = Some t → prevTaskIdRef s = Some (task_id t)).

End Events.

(** ** Further vocabulary and sample data *)

Module Fixture.
Import Agent.

(** The call moves a task and does nothing else. *)
Definition isReorder (call : FunctionCall) : Prop :=
  match call with
  | reorderTask _ _ => True
  | _ => False
  end.

(** The change of the total of the estimates caused by [call] when it
    resolves to the task [t]. *)
Definition minutesDelta (call : FunctionCall) (t : Task) : Z :=
  match call with
  | updateTaskTime _ newMinutes => newMinutes - estimatedMinutes t
  | deleteTask _ => - estimatedMinutes t
  | reorderTask _ _ => 0
  end.

(** [t'] is [t] up to its estimate. *)
Definition sameButMinutes (t' t : Task) : Prop :=
  t' = withEstimatedMinutes t (estimatedMinutes t').

Definition allCompleted (ts : list Task) : Prop :=
  Forall (λ t, status t = completed) ts.

Definition spelling : Task :=
  mkTask "t0" "Spelling list" LANGUAGE 10 [] completed 0.

Definition week : list Task := [spelling; Sample.algebra; Sample.essay; Sample.lab].

Definition stepUuid (i j : nat) : string := "q" +:+ pretty i +:+ "-" +:+ pretty j.

Definition trimNothing (s : string) : string := s.

(** A running session on [Sample.essay] with ninety seconds left, with
    [Sample.lab] waiting. *)
Definition ninetySeconds : Focus.Session :=
  Focus.mkSession [spelling; Sample.essay; Sample.lab] 90 true 1800
    [Sample.stepRead] (Some "t2") [].

(** The last pending task is current. *)
Definition lastOne : Focus.Session :=
  Focus.mkSession [spelling; Sample.lab] 40 false 900 [] (Some "t3") [].

(** An expired session on [Sample.essay] with [Sample.lab] waiting. *)
Definition expiredWithNext : Focus.Session :=
  Focus.mkSession [Sample.essay; Sample.lab] 0 false 1800 [Sample.stepRead]
    (Some "t2") [].

(** An expired session. *)
Definition expired : Focus.Session :=
  Focus.mkSession [Sample.essay] 0 false 1800 [Sample.stepRead] (Some "t2") [].

End Fixture.


(** ** Facts about the string built-ins *)

Section StringFacts.

Lemma append_String (c : ascii) (s t : string) :
  String c s +:+ t = String c (s +:+ t).
Proof. reflexivity. Qed.

Lemma append_Empty (t : string) : EmptyString +:+ t = t.
Proof. reflexivity. Qed.

Lemma append_assoc (s t u : string) : (s +:+ t) +:+ u = s +:+ t +:+ u.
Proof.
  induction s as [|c s IH]; [reflexivity|].
  rewrite !append_String. now f_equal.
Qed.

Lemma prefix_true_iff (n s : string) :
  String.prefix n s = true ↔ ∃ post, s = n +:+ post.
Proof.
  revert s. induction n as [|a n IH]; intros s.
  - destruct s; simpl; split; eauto.
  - destruct s as [|b s]; simpl.
    + split; [discriminate | intros [post Hp]; rewrite append_String in Hp; discriminate].
    + destruct (ascii_dec a b) as [->|Hne].
      * rewrite IH. split; intros [post Hp]; exists post;
          rewrite ?append_String in *; congruence.
      * split; [discriminate | intros [post Hp]; rewrite append_String in Hp; congruence].
Qed.

Lemma includes_Empty (n : string) :
  includes EmptyString n = String.prefix n EmptyString || false.
Proof. reflexivity. Qed.

Lemma includes_String (c : ascii) (s n : string) :
  includes (String c s) n = String.prefix n (String c s) || includes s n.
Proof. reflexivity. Qed.

Lemma includes_true_iff (s n : string) :
  includes s n = true ↔ Spec.occursIn n s.
Proof.
  unfold Spec.occursIn. induction s as [|c s IH].
  - rewrite includes_Empty, orb_false_r, prefix_true_iff. split.
    + intros [post Hp]. exists EmptyString, post. exact Hp.
    + intros (pre & post & Hp). destruct pre; [eauto | ].
      rewrite append_String in Hp. discriminate.
  - rewrite includes_String, orb_true_iff, prefix_true_iff, IH. split.
    + intros [[post Hp] | (pre & post & Hp)].
      * exists EmptyString, post. exact Hp.
      * exists (String c pre), post. rewrite append_String. congruence.
    + intros (pre & post & Hp). destruct pre as [|c' pre].
      * left. eauto.
      * right. exists pre, post. rewrite append_String in Hp. congruence.
Qed.

Lemma includes_empty (s : string) : includes s EmptyString = true.
Proof. destruct s; reflexivity. Qed.

Lemma includes_notFoundText (keyword : string) :
  includes (Agent.notFoundText keyword) keyword = true.
Proof.
  apply includes_true_iff. unfold Agent.notFoundText.
  exists ("I couldn't find a task matching " +:+ dquote), (dquote +:+ ".").
  now rewrite !append_assoc.
Qed.

End StringFacts.


(** ** The tool-call loop *)

Section AgentFacts.
Context `{!LowerCase}.
Import Agent Spec.

Lemma matchesKeyword_true_iff (keyword : string) (t : Task) :
  matchesKeyword (toLowerCase keyword) t = true ↔ taskMatches keyword t.
Proof.
  unfold matchesKeyword, taskMatches, containsIgnoringCase.
  now rewrite orb_true_iff, !includes_true_iff.
Qed.

Lemma findIndex_Some_lookup (lowerKeyword : string) (l : list Task) i t :
  findIndex lowerKeyword l = Some (i, t) → l !! i = Some t.
Proof. unfold findIndex. rewrite list_find_Some. tauto. Qed.

(** A call that resolves to no task only replaces the response text. *)
Lemma applyCall_unresolved (st : LoopState) (call : FunctionCall) :
  unresolved (newTasks st) call →
  applyCall st call =
    mkLoop (newTasks st) (notFoundText (taskKeyword call)) (tasksModified st).
Proof.
  unfold unresolved. intros Hnone.
  destruct call; unfold applyCall; cbn [taskKeyword] in *; now rewrite Hnone.
Qed.

(** No branch of the loop body reads the previous response text. *)
Lemma applyCall_ignores_text (st1 st2 : LoopState) (call : FunctionCall) :
  newTasks st1 = newTasks st2 → tasksModified st1 = tasksModified st2 →
  applyCall st1 call = applyCall st2 call.
Proof.
  intros Hl Hm. destruct call; unfold applyCall; rewrite Hl, Hm; reflexivity.
Qed.

Lemma runCalls_cons (st : LoopState) call calls :
  runCalls st (call :: calls) = runCalls (applyCall st call) calls.
Proof. reflexivity. Qed.

Lemma runCalls_app (st : LoopState) (pre post : list FunctionCall) :
  runCalls st (pre ++ post) = runCalls (runCalls st pre) post.
Proof. apply foldl_app. Qed.

Lemma runCalls_ignores_text (st1 st2 : LoopState) (calls : list FunctionCall) :
  newTasks st1 = newTasks st2 → tasksModified st1 = tasksModified st2 →
  calls ≠ [] → runCalls st1 calls = runCalls st2 calls.
Proof.
  intros Hl Hm Hne. destruct calls as [|call calls]; [congruence|].
  rewrite !runCalls_cons. now rewrite (applyCall_ignores_text st1 st2).
Qed.

Lemma runCalls_unresolved (st : LoopState) (calls : list FunctionCall) :
  Forall (unresolved (newTasks st)) calls →
  runCalls st calls =
    mkLoop (newTasks st)
      (match last calls with
       | Some call => notFoundText (taskKeyword call)
       | None => responseText st
       end)
      (tasksModified st).
Proof.
  revert st. induction calls as [|call calls IH]; intros st Hall.
  - now destruct st.
  - inversion Hall as [|? ? Hcall Hrest]; subst.
    rewrite runCalls_cons, (applyCall_unresolved _ _ Hcall), IH by exact Hrest.
    cbn [newTasks responseText tasksModified].
    destruct calls as [|call' calls]; [reflexivity|].
    change (last (call :: call' :: calls)) with (last (call' :: calls)).
    destruct (last (call' :: calls)) eqn:Hlast; [reflexivity|].
    apply last_None in Hlast. discriminate.
Qed.

(** C1. When every keyword of a batch resolves to no task, the loop leaves
    the working list equal to the input list, no updated list is returned
    (so the caller keeps its list), and the response text is the failure
    explanation of the last call of the batch (the default text when the
    batch is empty): the sentence that no task matching the keyword could
    be found, with the keyword of that call quoted in it. *)
Theorem unresolved_batch_leaves_list
    (text : option string) (calls : list FunctionCall) (currentTasks : list Task) :
  Forall (unresolved currentTasks) calls →
  newTasks (runCalls (initLoop text currentTasks) calls) = currentTasks ∧
  updatedTasks (processAgentCommand (AgentReplies text calls) currentTasks) = None ∧
  handleSend (AgentReplies text calls) currentTasks = currentTasks ∧
  res_responseText (processAgentCommand (AgentReplies text calls) currentTasks) =
    match last calls with
    | Some call => notFoundText (taskKeyword call)
    | None => orElse text "I've updated your plan!"
    end ∧
  ∀ call, last calls = Some call →
    res_responseText (processAgentCommand (AgentReplies text calls) currentTasks)
      = "I couldn't find a task matching " +:+ dquote +:+ taskKeyword call
          +:+ dquote +:+ "." ∧
    occursIn (taskKeyword call)
      (res_responseText (processAgentCommand (AgentReplies text calls) currentTasks)) ∧
    occursIn "I couldn't find a task matching"
      (res_responseText (processAgentCommand (AgentReplies text calls) currentTasks)).
Proof.
  intros Hall.
  pose proof (runCalls_unresolved (initLoop text currentTasks) calls Hall) as Hrun.
  unfold handleSend, processAgentCommand. rewrite Hrun.
  cbn [newTasks responseText tasksModified initLoop updatedTasks res_responseText].
  split_and!; try reflexivity.
  intros call ->. split_and!.
  - reflexivity.
  - apply includes_true_iff, includes_notFoundText.
  - exists EmptyString,
      (" " +:+ dquote +:+ taskKeyword call +:+ dquote +:+ ".").
    reflexivity.
Qed.

(** C8. [findIndex] returns the first index, in list order, of a task whose
    title or subject contains the keyword ignoring case, together with that
    task; it finds nothing exactly when no task of the list matches. *)
Theorem findIndex_selects_first_match (keyword : string) (tasks : list Task) :
  match findIndex (toLowerCase keyword) tasks with
  | Some (i, t) =>
      tasks !! i = Some t ∧ taskMatches keyword t ∧
      ∀ j u, tasks !! j = Some u → (j < i)%nat → ¬ taskMatches keyword u
  | None => Forall (λ u, ¬ taskMatches keyword u) tasks
  end.
Proof.
  destruct (findIndex (toLowerCase keyword) tasks) as [[i t]|] eqn:Hfind;
    unfold findIndex in Hfind.
  - apply list_find_Some in Hfind as (Hi & Hm & Hfirst).
    split_and!; [done | by apply matchesKeyword_true_iff |].
    intros j u Hj Hlt Hu. apply (Hfirst j u Hj Hlt).
    by apply matchesKeyword_true_iff.
  - apply list_find_None in Hfind.
    eapply Forall_impl; [exact Hfind|]. intros u Hu Hmatch.
    apply Hu. by apply matchesKeyword_true_iff.
Qed.

Lemma findIndex_empty_keyword (t : Task) (rest : list Task) :
  findIndex (toLowerCase EmptyString) (t :: rest) = Some (0%nat, t).
Proof.
  unfold findIndex. apply list_find_Some. split_and!; [done | | intros; lia].
  unfold matchesKeyword. now rewrite toLowerCase_empty, includes_empty.
Qed.

(** C4, as the code has it. The empty keyword occurs in every title, so on
    a non-empty list it resolves to the first task, and each kind of call
    acts on that task; it resolves to nothing only on the empty list. *)
Theorem empty_keyword_resolves_to_first
    (t : Task) (rest : list Task) (text : string) (modified : bool)
    (newMinutes newPosition : Z) :
  findIndex (toLowerCase EmptyString) (t :: rest) = Some (0%nat, t) ∧
  findIndex (toLowerCase EmptyString) [] = None ∧
  newTasks (applyCall (mkLoop (t :: rest) text modified) (deleteTask EmptyString))
    = rest ∧
  newTasks (applyCall (mkLoop (t :: rest) text modified)
              (updateTaskTime EmptyString newMinutes))
    = withEstimatedMinutes t newMinutes :: rest ∧
  newTasks (applyCall (mkLoop (t :: rest) text modified)
              (reorderTask EmptyString newPosition))
    = spliceIn (Z.to_nat (clampTarget newPosition (length rest))) t rest.
Proof.
  pose proof (findIndex_empty_keyword t rest) as Hfind.
  split_and!; [exact Hfind | reflexivity | | |];
    unfold applyCall; cbn [taskKeyword newTasks]; now rewrite Hfind.
Qed.

(** C6, as the code has it. A call whose keyword matches no task of the
    current snapshot changes neither the list nor the modified flag, and
    sets the response text to the failure explanation, which contains the
    keyword. The calls after it run as before: the batch returns the same
    list as the batch without that call. The failure explanation is the
    returned response text when the call is the last of the batch; when
    calls follow, they overwrite it and the whole result is that of the
    batch without the call. *)
Theorem unresolved_call_is_dropped
    (text : option string) (tasks : list Task)
    (pre : list FunctionCall) (call : FunctionCall) (post : list FunctionCall) :
  unresolved (newTasks (runCalls (initLoop text tasks) pre)) call →
  let before := runCalls (initLoop text tasks) pre in
  let after := applyCall before call in
  let batch := AgentReplies text (pre ++ call :: post) in
  let without := AgentReplies text (pre ++ post) in
  newTasks after = newTasks before ∧
  tasksModified after = tasksModified before ∧
  responseText after = notFoundText (taskKeyword call) ∧
  occursIn (taskKeyword call) (responseText after) ∧
  runCalls (initLoop text tasks) (pre ++ call :: post) = runCalls after post ∧
  updatedTasks (processAgentCommand batch tasks)
    = updatedTasks (processAgentCommand without tasks) ∧
  (post = [] →
     res_responseText (processAgentCommand batch tasks)
       = notFoundText (taskKeyword call)) ∧
  (post ≠ [] →
     processAgentCommand batch tasks = processAgentCommand without tasks).
Proof.
  intros Hnone before after batch without.
  assert (Hafter : after =
            mkLoop (newTasks before) (notFoundText (taskKeyword call))
              (tasksModified before))
    by (apply applyCall_unresolved; exact Hnone).
  assert (Hrun : runCalls (initLoop text tasks) (pre ++ call :: post)
                 = runCalls after post)
    by (rewrite runCalls_app; reflexivity).
  assert (Hpost : post ≠ [] → runCalls after post = runCalls before post).
  { intros Hne. apply runCalls_ignores_text; [| | exact Hne]; now rewrite Hafter. }
  split_and!.
  - now rewrite Hafter.
  - now rewrite Hafter.
  - now rewrite Hafter.
  - rewrite Hafter. apply includes_true_iff, includes_notFoundText.
  - exact Hrun.
  - unfold batch, without, processAgentCommand.
    cbn [updatedTasks]. rewrite Hrun, (runCalls_app _ pre post).
    fold before. destruct post as [|c post].
    + cbn [runCalls foldl]. now rewrite Hafter.
    + now rewrite Hpost.
  - intros ->. unfold batch, processAgentCommand. cbn [res_responseText].
    rewrite Hrun. cbn [runCalls foldl]. now rewrite Hafter.
  - intros Hne. unfold batch, without, processAgentCommand.
    rewrite Hrun, (runCalls_app _ pre post). fold before. now rewrite Hpost.
Qed.

End AgentFacts.


(** ** Reordering and time updates *)

Section MutationFacts.
Context `{!LowerCase}.
Import Agent Spec.

Lemma clampTarget_range (newPosition : Z) (len : nat) :
  0 ≤ clampTarget newPosition len ≤ Z.of_nat len.
Proof.
  unfold clampTarget.
  destruct (Z.ltb_spec (newPosition - 1) 0);
    [destruct (Z.gtb_spec 0 (Z.of_nat len)) | 
     destruct (Z.gtb_spec (newPosition - 1) (Z.of_nat len))]; lia.
Qed.

Lemma clampTarget_first (len : nat) : clampTarget 1 len = 0.
Proof.
  unfold clampTarget. change (1 - 1) with 0. cbn [Z.ltb Z.compare].
  destruct (Z.gtb_spec 0 (Z.of_nat len)); lia.
Qed.

Lemma clampTarget_last (newPosition : Z) (len : nat) :
  Z.of_nat len + 1 ≤ newPosition → clampTarget newPosition len = Z.of_nat len.
Proof.
  intros Hge. unfold clampTarget.
  destruct (Z.ltb_spec (newPosition - 1) 0); [lia|].
  destruct (Z.gtb_spec (newPosition - 1) (Z.of_nat len)); lia.
Qed.

Lemma spliceIn_length {A} (i : nat) (x : A) (l : list A) :
  length (spliceIn i x l) = S (length l).
Proof.
  unfold spliceIn. rewrite length_app, length_cons, length_take, length_drop. lia.
Qed.

Lemma spliceIn_lookup {A} (i : nat) (x : A) (l : list A) :
  (i ≤ length l)%nat → spliceIn i x l !! i = Some x.
Proof.
  intros Hi. unfold spliceIn.
  rewrite lookup_app_r by (rewrite length_take; lia).
  rewrite length_take. replace (i - i `min` length l)%nat with 0%nat by lia.
  reflexivity.
Qed.

Lemma spliceIn_delete {A} (i : nat) (x : A) (l : list A) :
  (i ≤ length l)%nat → delete i (spliceIn i x l) = l.
Proof.
  intros Hi. unfold spliceIn.
  replace i with (length (take i l)) at 1 by (rewrite length_take; lia).
  rewrite delete_middle. apply take_drop.
Qed.

(** C2. When the keyword of a [reorderTask] call resolves to a task, the
    task is spliced out and spliced back in at the clamped target index.
    That index lies between 0 and the last index of the resulting list,
    which holds the moved task there and the other tasks in their previous
    order around it. Position 1 puts the task first; a position of at
    least the length of the list puts it last. *)
Theorem reorder_reinserts_in_range
    (st : LoopState) (keyword : string) (newPosition : Z)
    (idx : nat) (taskToMove : Task) :
  findIndex (toLowerCase keyword) (newTasks st) = Some (idx, taskToMove) →
  let rest := delete idx (newTasks st) in
  let targetIndex := clampTarget newPosition (length rest) in
  let result := newTasks (applyCall st (reorderTask keyword newPosition)) in
  result = spliceIn (Z.to_nat targetIndex) taskToMove rest ∧
  length result = length (newTasks st) ∧
  0 ≤ targetIndex ≤ Z.of_nat (length result) - 1 ∧
  result !! Z.to_nat targetIndex = Some taskToMove ∧
  delete (Z.to_nat targetIndex) result = rest ∧
  (newPosition = 1 → targetIndex = 0 ∧ result = taskToMove :: rest) ∧
  (Z.of_nat (length (newTasks st)) ≤ newPosition →
     targetIndex = Z.of_nat (length result) - 1 ∧ result = rest ++ [taskToMove]).
Proof.
  intros Hfind rest targetIndex result.
  assert (Hres : result = spliceIn (Z.to_nat targetIndex) taskToMove rest).
  { unfold result, applyCall. cbn [taskKeyword]. now rewrite Hfind. }
  pose proof (findIndex_Some_lookup _ _ _ _ Hfind) as Hlook.
  assert (Hlen : length (newTasks st) = S (length rest)).
  { unfold rest. rewrite length_delete by eauto.
    apply lookup_lt_Some in Hlook. lia. }
  pose proof (clampTarget_range newPosition (length rest)) as Hrange.
  fold targetIndex in Hrange.
  assert (Hlenres : length result = S (length rest))
    by (rewrite Hres; apply spliceIn_length).
  split_and!.
  - exact Hres.
  - congruence.
  - lia.
  - lia.
  - rewrite Hres. apply spliceIn_lookup. lia.
  - rewrite Hres. apply spliceIn_delete. lia.
  - intros ->. assert (Hzero : targetIndex = 0) by apply clampTarget_first.
    split; [exact Hzero|]. rewrite Hres, Hzero. reflexivity.
  - intros Hge.
    assert (Hlast : targetIndex = Z.of_nat (length rest))
      by (apply clampTarget_last; lia).
    split; [lia|]. rewrite Hres, Hlast, Nat2Z.id. unfold spliceIn.
    now rewrite take_ge, drop_ge by lia.
Qed.

Lemma applyCall_positive (st : LoopState) (call : FunctionCall) :
  Forall positiveMinutes (newTasks st) → positiveUpdate call →
  Forall positiveMinutes (newTasks (applyCall st call)).
Proof.
  intros Hall Hcall.
  destruct call as [keyword newMinutes | keyword newPosition | keyword];
    unfold applyCall; cbn [taskKeyword];
    destruct (findIndex (toLowerCase keyword) (newTasks st)) as [[idx t]|] eqn:Hfind;
    cbn [newTasks]; try exact Hall.
  - apply Forall_insert; [exact Hall | exact Hcall].
  - pose proof (findIndex_Some_lookup _ _ _ _ Hfind) as Hlook.
    pose proof (Forall_delete _ _ idx Hall) as Hrest.
    unfold spliceIn. apply Forall_app. split.
    + now apply Forall_take.
    + constructor; [exact (Forall_lookup_1 _ _ _ _ Hall Hlook) | now apply Forall_drop].
  - now apply Forall_delete.
Qed.

(** C5, as the code has it. [updateTaskTime] stores the requested number of
    minutes as it is. When every task has a positive estimate and every
    [updateTaskTime] call of the batch requests a positive number, every
    task of the resulting list has a positive estimate. *)
Theorem positive_requests_keep_minutes_positive
    (text : option string) (calls : list FunctionCall) (tasks : list Task) :
  Forall positiveMinutes tasks → Forall positiveUpdate calls →
  Forall positiveMinutes (newTasks (runCalls (initLoop text tasks) calls)) ∧
  Forall positiveMinutes (handleSend (AgentReplies text calls) tasks).
Proof.
  intros Htasks Hcalls.
  assert (Hrun : ∀ st, Forall positiveMinutes (newTasks st) →
                   Forall positiveMinutes (newTasks (runCalls st calls))).
  { induction Hcalls as [|call calls Hcall _ IH]; intros st Hst; [exact Hst|].
    rewrite runCalls_cons. apply IH. now apply applyCall_positive. }
  specialize (Hrun (initLoop text tasks) Htasks).
  split; [exact Hrun|].
  unfold handleSend, processAgentCommand. cbn [updatedTasks].
  destruct (tasksModified _); [exact Hrun | exact Htasks].
Qed.

End MutationFacts.


(** ** Step generation *)

Section StepGenFacts.
Import StepGen Spec.

(** C7, as the code has it. When the step-generation call fails,
    [generateStepsForTask] returns one of two fixed sequences: the two
    steps for a response without text or with an empty text, and the four
    fallback steps when the request throws or its text cannot be parsed.
    In each case the step list it gives rise to in the focus session is
    not empty. *)
Theorem failed_generation_yields_fixed_steps
    (parseCleaned : string → option (list string)) (outcome : ServiceOutcome)
    (uuid : nat → string) :
  callFails parseCleaned outcome →
  generateStepsForTask parseCleaned outcome
    = (if textMissing outcome then emptyTextSteps else fallbackSteps) ∧
  generateStepsForTask parseCleaned outcome ≠ [] ∧
  length (generateStepsForTask parseCleaned outcome)
    = (if textMissing outcome then 2%nat else 4%nat) ∧
  length (Focus.toSteps uuid (generateStepsForTask parseCleaned outcome))
    = (if textMissing outcome then 2%nat else 4%nat).
Proof.
  intros Hfail.
  assert (Hgen : generateStepsForTask parseCleaned outcome
                 = (if textMissing outcome then emptyTextSteps else fallbackSteps)).
  { destruct outcome as [|[[|c text]|]]; cbn in Hfail |- *;
      [reflexivity | reflexivity | now rewrite Hfail | reflexivity]. }
  rewrite Hgen. unfold Focus.toSteps. rewrite length_imap.
  destruct (textMissing outcome);
    (split_and!; [reflexivity | discriminate | reflexivity | reflexivity]).
Qed.

End StepGenFacts.

(** ** The focus session *)

Section FocusFacts.
Import Focus.

Lemma timerEffect_timeLeft (s : Session) : timeLeft (timerEffect s) = timeLeft s.
Proof.
  unfold timerEffect. destruct (intervalArmed s); [reflexivity|].
  destruct (_ && _); reflexivity.
Qed.

Lemma tick_nonneg (s : Session) : 0 ≤ timeLeft s → 0 ≤ timeLeft (tick s).
Proof.
  intros Hs. unfold tick. destruct (intervalArmed s) eqn:Harmed; [|exact Hs].
  rewrite timerEffect_timeLeft. cbn [timeLeft].
  unfold intervalArmed in Harmed.
  apply andb_true_iff in Harmed as [Harmed _].
  apply andb_true_iff in Harmed as [_ Hpos].
  apply Z.ltb_lt in Hpos. lia.
Qed.

Lemma iter_tick_nonneg (n : nat) (s : Session) :
  0 ≤ timeLeft s → 0 ≤ timeLeft (Nat.iter n tick s).
Proof.
  intros Hs. induction n as [|n IH]; [exact Hs|].
  change (Nat.iter (S n) tick s) with (tick (Nat.iter n tick s)).
  now apply tick_nonneg.
Qed.

Lemma tick_unarmed (s : Session) : intervalArmed s = false → tick s = s.
Proof. intros Hoff. unfold tick. now rewrite Hoff. Qed.

Lemma iter_tick_unarmed (n : nat) (s : Session) :
  intervalArmed s = false → Nat.iter n tick s = s.
Proof.
  intros Hoff. induction n as [|n IH]; [reflexivity|].
  change (Nat.iter (S n) tick s) with (tick (Nat.iter n tick s)).
  rewrite IH. now apply tick_unarmed.
Qed.

(** C9. In a running session with two seconds left, the first tick leaves
    one second and the session running; the second tick leaves zero seconds
    and stops the session, which is then expired. Every further tick leaves
    that state as it is, and the remaining time is never negative, however
    many ticks occur. *)
Theorem countdown_from_two_expires (s : Session) :
  hasCurrentTask s = true → isPlaying s = true → timeLeft s = 2 →
  phase s = Running ∧
  timeLeft (tick s) = 1 ∧ phase (tick s) = Running ∧
  timeLeft (tick (tick s)) = 0 ∧
  isPlaying (tick (tick s)) = false ∧
  phase (tick (tick s)) = Expired ∧
  tick (tick (tick s)) = tick (tick s) ∧
  (∀ n, Nat.iter n tick (tick (tick s)) = tick (tick s)) ∧
  (∀ n, 0 ≤ timeLeft (Nat.iter n tick s)).
Proof.
  destruct s as [ts left playing total lsteps prev flying].
  cbn [isPlaying timeLeft]. intros Htask -> ->.
  assert (Hcur : ∀ a b c d e f, hasCurrentTask (mkSession ts a b c d e f) = true)
    by (intros; exact Htask).
  assert (H1 : tick (mkSession ts 2 true total lsteps prev flying)
               = mkSession ts 1 true total lsteps prev flying).
  { unfold tick, intervalArmed. cbn [isPlaying timeLeft]. rewrite Hcur.
    cbn. unfold timerEffect, intervalArmed. cbn [isPlaying timeLeft].
    rewrite Hcur. reflexivity. }
  assert (H2 : tick (mkSession ts 1 true total lsteps prev flying)
               = mkSession ts 0 false total lsteps prev flying).
  { unfold tick, intervalArmed. cbn [isPlaying timeLeft]. rewrite Hcur.
    cbn. unfold timerEffect, intervalArmed. cbn [isPlaying timeLeft].
    rewrite Hcur. reflexivity. }
  assert (Hoff : intervalArmed (mkSession ts 0 false total lsteps prev flying) = false)
    by reflexivity.
  rewrite H1, H2.
  split_and!; try reflexivity.
  - unfold phase. now rewrite Hcur.
  - unfold phase. now rewrite Hcur.
  - unfold phase. now rewrite Hcur.
  - intros n. now apply iter_tick_unarmed.
  - intros n. apply iter_tick_nonneg. cbn. lia.
Qed.

Lemma map_toggle_other (stepId : string) (l : list TaskStep) :
  Forall (λ st, step_id st ≠ stepId) l →
  map (λ st, if String.eqb (step_id st) stepId then flipCompleted st else st) l = l.
Proof.
  induction 1 as [|st l Hne _ IH]; [reflexivity|].
  cbn [map]. rewrite IH. apply String.eqb_neq in Hne. now rewrite Hne.
Qed.

Lemma map_toggle_at (l : list TaskStep) (i : nat) (st : TaskStep) :
  NoDup (step_id <$> l) → l !! i = Some st →
  map (λ x, if String.eqb (step_id x) (step_id st) then flipCompleted x else x) l
    = <[i := flipCompleted st]> l.
Proof.
  revert i. induction l as [|x l IH]; intros i Hnd Hi; [discriminate|].
  rewrite fmap_cons in Hnd. apply NoDup_cons in Hnd as [Hx Hnd].
  destruct i as [|i]; cbn [map].
  - injection Hi as ->. rewrite String.eqb_refl. cbn. f_equal.
    apply map_toggle_other. apply Forall_forall. intros y Hy Heq.
    apply Hx. rewrite <- Heq. apply list_elem_of_fmap. eauto.
  - cbn in Hi. assert (Hne : step_id x ≠ step_id st).
    { intros Heq. apply Hx. rewrite Heq. apply list_elem_of_fmap.
      exists st. split; [reflexivity|]. eapply list_elem_of_lookup_2. exact Hi. }
    apply String.eqb_neq in Hne. rewrite Hne. cbn. f_equal. now apply IH.
Qed.

(** C10. With step identifiers that are pairwise distinct, toggling a step
    of the session replaces that step by a copy with the same identifier
    and text and the opposite completion flag. Every other step, the
    remaining and total time, the playing flag, the task list, the current
    task, and the session phase stay as they were. *)
Theorem toggleStep_flips_only_that_step (s : Session) (i : nat) (st : TaskStep) :
  NoDup (step_id <$> localSteps s) → localSteps s !! i = Some st →
  localSteps (toggleStep (step_id st) s) = <[i := flipCompleted st]> (localSteps s) ∧
  step_id (flipCompleted st) = step_id st ∧
  step_text (flipCompleted st) = step_text st ∧
  isCompleted (flipCompleted st) = negb (isCompleted st) ∧
  (∀ j, j ≠ i → localSteps (toggleStep (step_id st) s) !! j = localSteps s !! j) ∧
  timeLeft (toggleStep (step_id st) s) = timeLeft s ∧
  totalTime (toggleStep (step_id st) s) = totalTime s ∧
  isPlaying (toggleStep (step_id st) s) = isPlaying s ∧
  tasks (toggleStep (step_id st) s) = tasks s ∧
  currentTask (toggleStep (step_id st) s) = currentTask s ∧
  phase (toggleStep (step_id st) s) = phase s.
Proof.
  intros Hnd Hi.
  assert (Hsteps : localSteps (toggleStep (step_id st) s)
                   = <[i := flipCompleted st]> (localSteps s))
    by (unfold toggleStep; cbn [localSteps]; now apply map_toggle_at).
  split_and!; try reflexivity; [exact Hsteps|].
  intros j Hj. rewrite Hsteps. now apply list_lookup_insert_ne.
Qed.

(** C3, as the code has it. When a task becomes the current one, the effect
    shows its stored steps and starts a step-generation request exactly
    when it has none. Whenever the result of that request arrives, in
    whatever state the session is by then, it becomes the step list of the
    session; the timer, the playing flag and the task list are untouched. *)
Theorem generated_steps_installed_on_arrival (s : Session) (t : Task) :
  currentTask s = Some t → prevTaskIdRef s ≠ Some (task_id t) →
  localSteps (taskEffect s) = steps t ∧
  inFlight (taskEffect s)
    = (if decide (steps t = []) then inFlight s ++ [t] else inFlight s) ∧
  ∀ (later : Session) (k : nat) (uuid : nat → string) (generated : list string),
    inFlight later !! k = Some t →
    localSteps (stepsArrive k uuid generated later) = toSteps uuid generated ∧
    inFlight (stepsArrive k uuid generated later) = delete k (inFlight later) ∧
    timeLeft (stepsArrive k uuid generated later) = timeLeft later ∧
    totalTime (stepsArrive k uuid generated later) = totalTime later ∧
    isPlaying (stepsArrive k uuid generated later) = isPlaying later ∧
    tasks (stepsArrive k uuid generated later) = tasks later.
Proof.
  intros Hcur Hprev. unfold taskEffect. rewrite Hcur.
  destruct (decide (prevTaskIdRef s = Some (task_id t))) as [Heq|_];
    [contradiction|].
  cbn [localSteps inFlight]. split_and!.
  - reflexivity.
  - destruct (steps t); reflexivity.
  - intros later k uuid generated Hk. unfold stepsArrive. rewrite Hk.
    split_and!; reflexivity.
Qed.

End FocusFacts.


(** ** Concrete runs *)

Section Runs.
Import Agent Spec Focus StepGen.

Local Ltac evaluate := vm_compute; first [reflexivity | exact I].

Local Ltac evaluate_all :=
  repeat (apply Forall_cons_2; [evaluate|]); apply Forall_nil_2.

Lemma unresolved_batch_leaves_list_witness :
  Forall (unresolved Sample.plan) Sample.unmatchedBatch ∧
  updatedTasks (processAgentCommand (AgentReplies None Sample.unmatchedBatch) Sample.plan)
    = None ∧
  handleSend (AgentReplies None Sample.unmatchedBatch) Sample.plan = Sample.plan ∧
  res_responseText
    (processAgentCommand (AgentReplies None Sample.unmatchedBatch) Sample.plan)
    = notFoundText "history" ∧
  occursIn "history"
    (res_responseText
       (processAgentCommand (AgentReplies None Sample.unmatchedBatch) Sample.plan)).
Proof.
  assert (Hall : Forall (unresolved Sample.plan) Sample.unmatchedBatch)
    by evaluate_all.
  split; [exact Hall|].
  destruct (unresolved_batch_leaves_list None _ _ Hall)
    as (_ & Hnone & Hsend & Htext & Hlast).
  split; [exact Hnone|]. split; [exact Hsend|]. split; [exact Htext|].
  exact (proj1 (proj2 (Hlast (updateTaskTime "history" 5) eq_refl))).
Defined.

Lemma reorder_reinserts_in_range_witness :
  findIndex (toLowerCase "LAB") (newTasks Sample.loopStart)
    = Some (2%nat, Sample.lab) ∧
  newTasks (applyCall Sample.loopStart (reorderTask "LAB" 1))
    = [Sample.lab; Sample.algebra; Sample.essay] ∧
  newTasks (applyCall Sample.loopStart (reorderTask "LAB" 3))
    = [Sample.algebra; Sample.essay; Sample.lab].
Proof.
  assert (Hfind : findIndex (toLowerCase "LAB") (newTasks Sample.loopStart)
                  = Some (2%nat, Sample.lab)) by evaluate.
  split; [exact Hfind|].
  destruct (reorder_reinserts_in_range Sample.loopStart "LAB" 1 _ _ Hfind)
    as (_ & _ & _ & _ & _ & Hfirst & _).
  destruct (reorder_reinserts_in_range Sample.loopStart "LAB" 3 _ _ Hfind)
    as (_ & _ & _ & _ & _ & _ & Hlast).
  split; [apply Hfirst; reflexivity | apply Hlast; vm_compute; discriminate].
Defined.

(** C3, counterexample. The request started for the first task is still
    unanswered when the second task has become the current one; when its
    result arrives, it replaces the steps shown for the second task. *)
Lemma stale_result_replaces_steps :
  inFlight Sample.advanced !! 0%nat = Some Sample.algebra ∧
  currentTask Sample.advanced = Some Sample.essay ∧
  task_id Sample.algebra ≠ task_id Sample.essay ∧
  localSteps Sample.advanced = [Sample.stepRead] ∧
  localSteps (stepsArrive 0 Sample.uuid ["Open the book"] Sample.advanced)
    = [mkStep "u0" "Open the book" false] ∧
  localSteps (stepsArrive 0 Sample.uuid ["Open the book"] Sample.advanced)
    ≠ localSteps Sample.advanced.
Proof.
  split_and!; try (vm_compute; reflexivity); vm_compute; discriminate.
Qed.

Lemma generated_steps_installed_on_arrival_witness :
  currentTask (initialState [Sample.algebra; Sample.essay]) = Some Sample.algebra ∧
  prevTaskIdRef (initialState [Sample.algebra; Sample.essay])
    ≠ Some (task_id Sample.algebra) ∧
  inFlight (taskEffect (initialState [Sample.algebra; Sample.essay]))
    = [Sample.algebra] ∧
  localSteps (stepsArrive 0 Sample.uuid fallbackSteps Sample.advanced)
    = toSteps Sample.uuid fallbackSteps.
Proof.
  assert (Hcur : currentTask (initialState [Sample.algebra; Sample.essay])
                 = Some Sample.algebra) by evaluate.
  assert (Hprev : prevTaskIdRef (initialState [Sample.algebra; Sample.essay])
                  ≠ Some (task_id Sample.algebra)) by (vm_compute; discriminate).
  split; [exact Hcur|]. split; [exact Hprev|].
  destruct (generated_steps_installed_on_arrival _ _ Hcur Hprev)
    as (_ & Hreq & Harrive).
  split; [exact Hreq|].
  apply (Harrive Sample.advanced 0%nat Sample.uuid fallbackSteps). evaluate.
Defined.

(** C4, counterexample. A call with the empty keyword resolves to the first
    task of the list and removes it. *)
Lemma empty_keyword_deletes_first_task :
  findIndex (toLowerCase EmptyString) Sample.plan = Some (0%nat, Sample.algebra) ∧
  handleSend (AgentReplies None [deleteTask EmptyString]) Sample.plan
    = [Sample.essay; Sample.lab] ∧
  handleSend (AgentReplies None [deleteTask EmptyString]) Sample.plan ≠ Sample.plan.
Proof.
  split_and!; try (vm_compute; reflexivity); vm_compute; discriminate.
Qed.

(** C5, counterexample. Every task has a positive estimate, and one
    [updateTaskTime] call stores an estimate of zero minutes. *)
Lemma zero_minutes_update_is_stored :
  Forall positiveMinutes Sample.plan ∧
  handleSend (AgentReplies None [updateTaskTime "algebra" 0]) Sample.plan
    = [withEstimatedMinutes Sample.algebra 0; Sample.essay; Sample.lab] ∧
  ¬ Forall positiveMinutes
      (handleSend (AgentReplies None [updateTaskTime "algebra" 0]) Sample.plan).
Proof.
  split_and!; [evaluate_all | vm_compute; reflexivity |].
  intros Hall. apply Forall_cons in Hall as [Hfirst _]. vm_compute in Hfirst.
  discriminate.
Qed.

Lemma positive_requests_keep_minutes_positive_witness :
  Forall positiveMinutes Sample.plan ∧
  Forall positiveUpdate [updateTaskTime "essay" 45; deleteTask "zzz"] ∧
  Forall positiveMinutes
    (handleSend (AgentReplies None [updateTaskTime "essay" 45; deleteTask "zzz"])
       Sample.plan).
Proof.
  assert (Htasks : Forall positiveMinutes Sample.plan) by evaluate_all.
  assert (Hcalls : Forall positiveUpdate [updateTaskTime "essay" 45; deleteTask "zzz"])
    by evaluate_all.
  split; [exact Htasks|]. split; [exact Hcalls|].
  exact (proj2 (positive_requests_keep_minutes_positive None _ _ Htasks Hcalls)).
Defined.

(** C6, counterexample. The first call of the batch matches no task; the
    second call succeeds and its message is the response text, in which the
    unmatched keyword does not occur. *)
Lemma later_call_overwrites_failure_text :
  unresolved Sample.plan (deleteTask "zzz") ∧
  res_responseText (processAgentCommand (AgentReplies None Sample.mixedBatch) Sample.plan)
    = "Removed Algebra worksheet from your list." ∧
  ¬ occursIn "zzz"
      (res_responseText
         (processAgentCommand (AgentReplies None Sample.mixedBatch) Sample.plan)).
Proof.
  split_and!; [evaluate | evaluate |].
  intros Hocc. apply includes_true_iff in Hocc. vm_compute in Hocc. discriminate.
Qed.

Lemma unresolved_call_is_dropped_witness :
  unresolved
    (newTasks (runCalls (initLoop None Sample.plan) [updateTaskTime "essay" 45]))
    (deleteTask "zzz") ∧
  updatedTasks
    (processAgentCommand
       (AgentReplies None [updateTaskTime "essay" 45; deleteTask "zzz"; deleteTask "lab"])
       Sample.plan)
    = Some [Sample.algebra; withEstimatedMinutes Sample.essay 45] ∧
  res_responseText
    (processAgentCommand
       (AgentReplies None [updateTaskTime "essay" 45; deleteTask "zzz"]) Sample.plan)
    = notFoundText "zzz".
Proof.
  assert (Hnone : unresolved
            (newTasks (runCalls (initLoop None Sample.plan) [updateTaskTime "essay" 45]))
            (deleteTask "zzz")) by evaluate.
  split; [exact Hnone|].
  destruct (unresolved_call_is_dropped None Sample.plan
              [updateTaskTime "essay" 45] (deleteTask "zzz") [deleteTask "lab"] Hnone)
    as (_ & _ & _ & _ & _ & Hsame & _).
  destruct (unresolved_call_is_dropped None Sample.plan
              [updateTaskTime "essay" 45] (deleteTask "zzz") [] Hnone)
    as (_ & _ & _ & _ & _ & _ & Hlast & _).
  split; [etransitivity; [exact Hsame | evaluate] | apply Hlast; reflexivity].
Defined.

(** C7, counterexample. A response without text is a failed call, and the
    steps returned for it are the two fixed ones, not the four fallback
    steps; the same holds for an empty text. *)
Lemma missing_text_yields_two_steps :
  callFails Sample.noParse (CallReturns None) ∧
  generateStepsForTask Sample.noParse (CallReturns None)
    = ["Start task"; "Complete task"] ∧
  generateStepsForTask Sample.noParse (CallReturns None) ≠ fallbackSteps ∧
  callFails Sample.noParse (CallReturns (Some EmptyString)) ∧
  generateStepsForTask Sample.noParse (CallReturns (Some EmptyString))
    ≠ fallbackSteps.
Proof.
  split_and!; try (vm_compute; first [reflexivity | exact I]);
    vm_compute; discriminate.
Qed.

Lemma failed_generation_yields_fixed_steps_witness :
  callFails Sample.noParse (CallReturns (Some "not json")) ∧
  callFails Sample.noParse CallThrows ∧
  callFails Sample.noParse (CallReturns None) ∧
  generateStepsForTask Sample.noParse (CallReturns (Some "not json")) = fallbackSteps ∧
  generateStepsForTask Sample.noParse CallThrows = fallbackSteps ∧
  generateStepsForTask Sample.noParse (CallReturns None) = emptyTextSteps.
Proof.
  assert (Hparse : callFails Sample.noParse (CallReturns (Some "not json")))
    by evaluate.
  assert (Hthrow : callFails Sample.noParse CallThrows) by evaluate.
  assert (Hnone : callFails Sample.noParse (CallReturns None)) by evaluate.
  split; [exact Hparse|]. split; [exact Hthrow|]. split; [exact Hnone|].
  split_and!.
  - exact (proj1 (failed_generation_yields_fixed_steps _ _ Sample.uuid Hparse)).
  - exact (proj1 (failed_generation_yields_fixed_steps _ _ Sample.uuid Hthrow)).
  - exact (proj1 (failed_generation_yields_fixed_steps _ _ Sample.uuid Hnone)).
Defined.

Lemma countdown_from_two_expires_witness :
  hasCurrentTask Sample.twoSecondsLeft = true ∧
  isPlaying Sample.twoSecondsLeft = true ∧
  timeLeft Sample.twoSecondsLeft = 2 ∧
  timeLeft (tick (tick Sample.twoSecondsLeft)) = 0 ∧
  phase (tick (tick Sample.twoSecondsLeft)) = Expired.
Proof.
  assert (Htask : hasCurrentTask Sample.twoSecondsLeft = true) by evaluate.
  assert (Hplay : isPlaying Sample.twoSecondsLeft = true) by evaluate.
  assert (Hleft : timeLeft Sample.twoSecondsLeft = 2) by evaluate.
  split; [exact Htask|]. split; [exact Hplay|]. split; [exact Hleft|].
  destruct (countdown_from_two_expires _ Htask Hplay Hleft)
    as (_ & _ & _ & Hzero & _ & Hexpired & _).
  split; [exact Hzero | exact Hexpired].
Defined.

Lemma toggleStep_flips_only_that_step_witness :
  NoDup (step_id <$> localSteps Sample.twoSecondsLeft) ∧
  localSteps Sample.twoSecondsLeft !! 1%nat = Some Sample.stepCheck ∧
  localSteps (toggleStep "s2" Sample.twoSecondsLeft)
    = [Sample.stepRead; mkStep "s2" "Check spelling" false] ∧
  timeLeft (toggleStep "s2" Sample.twoSecondsLeft) = 2.
Proof.
  assert (Hnd : NoDup (step_id <$> localSteps Sample.twoSecondsLeft)).
  { apply (bool_decide_unpack _). vm_compute. exact I. }
  assert (Hi : localSteps Sample.twoSecondsLeft !! 1%nat = Some Sample.stepCheck)
    by evaluate.
  split; [exact Hnd|]. split; [exact Hi|].
  destruct (toggleStep_flips_only_that_step _ _ _ Hnd Hi)
    as (Hsteps & _ & _ & _ & _ & Hleft & _).
  split; [exact Hsteps | exact Hleft].
Defined.

End Runs.


(** ** What a batch can and cannot do to the list *)

Section BatchInvariants.
Context `{!LowerCase}.
Import Agent Spec Fixture Dashboard.

Lemma submseteq_keeps_NoDup {A} (l k : list A) : l ⊆+ k → NoDup k → NoDup l.
Proof.
  intros Hsub Hk. apply submseteq_sublist_l in Hsub as (m & Hlm & Hmk).
  apply (sublist_NoDup l m); [|exact Hlm]. now rewrite Hmk.
Qed.

Lemma spliceIn_Permutation {A} (i : nat) (x : A) (l : list A) :
  spliceIn i x l ≡ₚ x :: l.
Proof.
  unfold spliceIn. rewrite <- Permutation_middle. now rewrite take_drop.
Qed.


Lemma delete_insert_same {A} (l : list A) (i : nat) (x : A) :
  delete i (<[i := x]> l) = delete i l.
Proof.
  revert i. induction l as [|y l IH]; intros [|i]; cbn; try reflexivity.
  f_equal. apply IH.
Qed.

Lemma sameButMinutes_refl (t : Task) : sameButMinutes t t.
Proof. now destruct t. Qed.

Lemma sameButMinutes_trans (a b c : Task) :
  sameButMinutes a b → sameButMinutes b c → sameButMinutes a c.
Proof. unfold sameButMinutes. intros -> ->. now destruct c. Qed.

(** The identifiers after one call are among those before it, each as
    often as before at most. *)
Lemma applyCall_ids (st : LoopState) (call : FunctionCall) :
  task_id <$> newTasks (applyCall st call) ⊆+ task_id <$> newTasks st.
Proof.
  destruct call as [keyword newMinutes | keyword newPosition | keyword];
    unfold applyCall; cbn [taskKeyword];
    destruct (findIndex (toLowerCase keyword) (newTasks st)) as [[idx t]|] eqn:Hfind;
    cbn [newTasks]; try reflexivity;
    pose proof (findIndex_Some_lookup _ _ _ _ Hfind) as Hlook.
  - rewrite list_fmap_insert. cbn [task_id withEstimatedMinutes].
    rewrite list_insert_id; [reflexivity|].
    now rewrite list_lookup_fmap, Hlook.
  - apply Permutation_submseteq. apply fmap_Permutation.
    rewrite spliceIn_Permutation. symmetry. now apply delete_Permutation.
  - rewrite list_fmap_delete. apply submseteq_delete.
Qed.

Lemma runCalls_ids (st : LoopState) (calls : list FunctionCall) :
  task_id <$> newTasks (runCalls st calls) ⊆+ task_id <$> newTasks st.
Proof.
  revert st. induction calls as [|call calls IH]; intros st; [reflexivity|].
  rewrite runCalls_cons. etransitivity; [apply IH | apply applyCall_ids].
Qed.

Lemma handleSend_cases (reply : AgentReply) (tasks : list Task) :
  handleSend reply tasks = tasks ∨
  ∃ text calls, reply = AgentReplies text calls ∧
    handleSend reply tasks = newTasks (runCalls (initLoop text tasks) calls).
Proof.
  destruct reply as [|text calls]; [now left|].
  unfold handleSend, processAgentCommand. cbn [updatedTasks].
  destruct (tasksModified _); [right; eauto | now left].
Qed.

(** Every task after one call is a task from before it, up to its
    estimate. *)
Lemma applyCall_tasks (st : LoopState) (call : FunctionCall) (t' : Task) :
  t' ∈ newTasks (applyCall st call) →
  ∃ t, t ∈ newTasks st ∧ sameButMinutes t' t.
Proof.
  destruct call as [keyword newMinutes | keyword newPosition | keyword];
    unfold applyCall; cbn [taskKeyword];
    destruct (findIndex (toLowerCase keyword) (newTasks st)) as [[idx t]|] eqn:Hfind;
    cbn [newTasks]; intros Hin;
    try (exists t'; split; [exact Hin | apply sameButMinutes_refl]);
    pose proof (findIndex_Some_lookup _ _ _ _ Hfind) as Hlook.
  - apply list_elem_of_lookup in Hin as [j Hj].
    destruct (decide (idx = j)) as [<-|Hne].
    + rewrite list_lookup_insert_eq in Hj by (now apply lookup_lt_Some in Hlook).
      injection Hj as <-. exists t. split.
      * eapply list_elem_of_lookup_2. exact Hlook.
      * reflexivity.
    + rewrite list_lookup_insert_ne in Hj by exact Hne.
      exists t'. split; [eapply list_elem_of_lookup_2; exact Hj |].
      apply sameButMinutes_refl.
  - exists t'. split; [|apply sameButMinutes_refl].
    rewrite spliceIn_Permutation in Hin.
    now rewrite (delete_Permutation _ _ _ Hlook).
  - exists t'. split; [|apply sameButMinutes_refl].
    eapply list_elem_of_delete_inv. exact Hin.
Qed.

Lemma runCalls_tasks (st : LoopState) (calls : list FunctionCall) (t' : Task) :
  t' ∈ newTasks (runCalls st calls) →
  ∃ t, t ∈ newTasks st ∧ sameButMinutes t' t.
Proof.
  revert st. induction calls as [|call calls IH]; intros st Hin.
  - exists t'. split; [exact Hin | apply sameButMinutes_refl].
  - rewrite runCalls_cons in Hin.
    destruct (IH _ Hin) as (u & Hu & Htu).
    destruct (applyCall_tasks _ _ _ Hu) as (t & Ht & Hut).
    exists t. split; [exact Ht|]. eapply sameButMinutes_trans; eassumption.
Qed.

Lemma applyCall_modified_false (st : LoopState) (call : FunctionCall) :
  tasksModified (applyCall st call) = false →
  unresolved (newTasks st) call ∧ tasksModified st = false.
Proof.
  unfold unresolved.
  destruct call as [keyword newMinutes | keyword newPosition | keyword];
    unfold applyCall; cbn [taskKeyword];
    destruct (findIndex (toLowerCase keyword) (newTasks st)) as [[idx t]|];
    cbn [tasksModified]; intros Hfalse; try discriminate; now split.
Qed.

Lemma runCalls_modified_false (st : LoopState) (calls : list FunctionCall) :
  tasksModified (runCalls st calls) = false →
  Forall (unresolved (newTasks st)) calls ∧ tasksModified st = false.
Proof.
  revert st. induction calls as [|call calls IH]; intros st Hfalse.
  - split; [constructor | exact Hfalse].
  - rewrite runCalls_cons in Hfalse.
    destruct (IH _ Hfalse) as [Hrest Hstep].
    destruct (applyCall_modified_false _ _ Hstep) as [Hcall Hst].
    rewrite (applyCall_unresolved _ _ Hcall) in Hrest.
    split; [constructor; assumption | exact Hst].
Qed.

(** X1. The interpreter returns an updated list exactly when at least one
    call of the batch resolves to a task of the list it was given: no list
    is returned if and only if every keyword is unresolved on the input
    list. *)
Theorem no_update_iff_all_unresolved
    (text : option string) (calls : list FunctionCall) (tasks : list Task) :
  updatedTasks (processAgentCommand (AgentReplies text calls) tasks) = None
  ↔ Forall (unresolved tasks) calls.
Proof.
  unfold processAgentCommand. cbn [updatedTasks]. split.
  - destruct (tasksModified _) eqn:Hmod; [discriminate|]. intros _.
    exact (proj1 (runCalls_modified_false _ _ Hmod)).
  - intros Hall.
    rewrite (runCalls_unresolved (initLoop text tasks) calls Hall).
    reflexivity.
Qed.

(** X2. Handling a reply never duplicates a task identifier: when the
    identifiers of the list are pairwise distinct, so are those of the list
    after the reply, whatever the batch. *)
Theorem reply_keeps_ids_distinct (reply : AgentReply) (tasks : list Task) :
  NoDup (task_id <$> tasks) → NoDup (task_id <$> handleSend reply tasks).
Proof.
  intros Hnd. destruct (handleSend_cases reply tasks) as [-> | (text & calls & _ & ->)];
    [exact Hnd|].
  eapply submseteq_keeps_NoDup; [apply runCalls_ids | exact Hnd].
Qed.

(** X3. Handling a reply never adds a task and never alters anything but
    an estimate: the resulting list is no longer than the given one, and
    each of its tasks is a task of the given list with, at most, another
    number of estimated minutes. *)
Theorem reply_only_changes_minutes (reply : AgentReply) (tasks : list Task) :
  (length (handleSend reply tasks) ≤ length tasks)%nat ∧
  ∀ t', t' ∈ handleSend reply tasks → ∃ t, t ∈ tasks ∧ sameButMinutes t' t.
Proof.
  destruct (handleSend_cases reply tasks) as [-> | (text & calls & _ & ->)].
  - split; [lia|]. intros t' Hin. exists t'. split; [exact Hin|].
    apply sameButMinutes_refl.
  - split.
    + pose proof (submseteq_length _ _ (runCalls_ids (initLoop text tasks) calls)) as Hlen.
      now rewrite !length_fmap in Hlen.
    + intros t' Hin. exact (runCalls_tasks _ _ _ Hin).
Qed.

(** X4. A batch made of [reorderTask] calls only returns a rearrangement of
    the list: every task occurs in the result as often as in the input. *)
Theorem reorder_batch_permutes
    (text : option string) (calls : list FunctionCall) (tasks : list Task) :
  Forall isReorder calls →
  newTasks (runCalls (initLoop text tasks) calls) ≡ₚ tasks ∧
  handleSend (AgentReplies text calls) tasks ≡ₚ tasks.
Proof.
  intros Hall.
  assert (Hrun : ∀ st, newTasks (runCalls st calls) ≡ₚ newTasks st).
  { induction Hall as [|call calls Hcall _ IH]; intros st; [reflexivity|].
    rewrite runCalls_cons, IH.
    destruct call as [| keyword newPosition |]; try contradiction.
    unfold applyCall. cbn [taskKeyword].
    destruct (findIndex (toLowerCase keyword) (newTasks st)) as [[idx t]|] eqn:Hfind;
      cbn [newTasks]; [|reflexivity].
    rewrite spliceIn_Permutation. symmetry. apply delete_Permutation.
    exact (findIndex_Some_lookup _ _ _ _ Hfind). }
  split; [exact (Hrun (initLoop text tasks))|].
  unfold handleSend, processAgentCommand. cbn [updatedTasks].
  destruct (tasksModified _); [exact (Hrun (initLoop text tasks)) | reflexivity].
Qed.


Lemma foldl_minutes (a : Z) (l : list Task) :
  foldl (λ acc t, acc + estimatedMinutes t) a l = a + totalMinutes l.
Proof.
  unfold totalMinutes. revert a. induction l as [|t l IH]; intros a; cbn [foldl].
  - lia.
  - rewrite (IH (a + estimatedMinutes t)), (IH (0 + estimatedMinutes t)). lia.
Qed.

Lemma totalMinutes_cons (t : Task) (l : list Task) :
  totalMinutes (t :: l) = estimatedMinutes t + totalMinutes l.
Proof.
  unfold totalMinutes at 1. cbn [foldl]. rewrite foldl_minutes. lia.
Qed.

Lemma totalMinutes_Permutation (l k : list Task) :
  l ≡ₚ k → totalMinutes l = totalMinutes k.
Proof.
  induction 1 as [|t l k _ IH|t u l|l k m _ IH1 _ IH2];
    rewrite ?totalMinutes_cons; lia.
Qed.

Lemma totalMinutes_lookup (l : list Task) (i : nat) (t : Task) :
  l !! i = Some t →
  totalMinutes l = estimatedMinutes t + totalMinutes (delete i l).
Proof.
  intros Hi. rewrite (totalMinutes_Permutation _ _ (delete_Permutation _ _ _ Hi)).
  apply totalMinutes_cons.
Qed.

(** X6. A call that resolves to a task changes the total of the estimates
    shown on the planning screen by a known amount: the difference between
    the new and the old estimate for [updateTaskTime], minus the estimate of
    the removed task for [deleteTask], and nothing for [reorderTask]. *)
Theorem resolved_call_total
    (st : LoopState) (call : FunctionCall) (idx : nat) (t : Task) :
  findIndex (toLowerCase (taskKeyword call)) (newTasks st) = Some (idx, t) →
  totalMinutes (newTasks (applyCall st call))
    = totalMinutes (newTasks st) + minutesDelta call t.
Proof.
  intros Hfind. pose proof (findIndex_Some_lookup _ _ _ _ Hfind) as Hlook.
  rewrite (totalMinutes_lookup _ _ _ Hlook).
  destruct call as [keyword newMinutes | keyword newPosition | keyword];
    unfold applyCall; cbn [taskKeyword] in *; rewrite Hfind;
    cbn [newTasks minutesDelta].
  - rewrite (totalMinutes_lookup (<[idx := _]> (newTasks st)) idx
               (withEstimatedMinutes t newMinutes)).
    + rewrite delete_insert_same. cbn [estimatedMinutes withEstimatedMinutes]. lia.
    + apply list_lookup_insert_eq. now apply lookup_lt_Some in Hlook.
  - rewrite (totalMinutes_Permutation _ _ (spliceIn_Permutation _ _ _)).
    rewrite totalMinutes_cons. lia.
  - lia.
Qed.

End BatchInvariants.


(** ** Entering, pausing and advancing a focus session *)

Section SessionFacts.
Import Focus Fixture.

Lemma hasCurrentTask_tasks (s s' : Session) :
  tasks s = tasks s' → hasCurrentTask s = hasCurrentTask s'.
Proof. unfold hasCurrentTask, currentTask. now intros ->. Qed.

Lemma pendingTasks_nil_iff (ts : list Task) :
  pendingTasks ts = [] ↔ allCompleted ts.
Proof.
  unfold pendingTasks, allCompleted. induction ts as [|t ts IH].
  - split; [constructor | reflexivity].
  - rewrite filter_cons, Forall_cons.
    destruct (decide (status t ≠ completed)) as [Hp|Hc].
    + split; [discriminate | tauto].
    + apply dec_stable in Hc. rewrite IH. tauto.
Qed.

Lemma pendingTasks_handleCompleteTask (k : string) (ts : list Task) :
  pendingTasks (handleCompleteTask k ts)
    = filter (λ t, task_id t ≠ k) (pendingTasks ts).
Proof.
  unfold pendingTasks, handleCompleteTask. induction ts as [|t ts IH];
    [reflexivity|].
  cbn [map]. rewrite !filter_cons, IH.
  destruct (String.eqb_spec (task_id t) k) as [Heq|Hne].
  - cbn [status withStatus].
    destruct (decide (completed ≠ completed)) as [Habs|_]; [now destruct Habs|].
    destruct (decide (status t ≠ completed)); [|reflexivity].
    rewrite filter_cons.
    destruct (decide (task_id t ≠ k)) as [Hne|_]; [now destruct Hne | reflexivity].
  - destruct (decide (status t ≠ completed)); [|reflexivity].
    rewrite filter_cons.
    destruct (decide (task_id t ≠ k)) as [_|Heq]; [reflexivity | now destruct Heq].
Qed.

Lemma pendingTasks_ids_NoDup (ts : list Task) :
  NoDup (task_id <$> ts) → NoDup (task_id <$> pendingTasks ts).
Proof.
  intros Hnd. eapply sublist_NoDup; [exact Hnd|].
  apply fmap_sublist, sublist_filter.
Qed.

Lemma filter_other_ids (k : string) (l : list Task) :
  k ∉ task_id <$> l → filter (λ t, task_id t ≠ k) l = l.
Proof.
  induction l as [|t l IH]; [reflexivity|].
  rewrite fmap_cons, not_elem_of_cons. intros [Hne Hrest].
  rewrite filter_cons.
  destruct (decide (task_id t ≠ k)) as [_|Heq]; [|exfalso; apply Heq; congruence].
  now rewrite IH.
Qed.

(** What the two effects make of a session whose current task is not the
    one recorded in the ref. *)
Lemma effects_on_new_task (s : Session) (t : Task) :
  currentTask s = Some t → prevTaskIdRef s ≠ Some (task_id t) →
  timerEffect (taskEffect s) =
    mkSession (tasks s) (estimatedMinutes t * 60)
      (negb (estimatedMinutes t * 60 =? 0)) (estimatedMinutes t * 60)
      (steps t) (Some (task_id t))
      (match steps t with [] => inFlight s ++ [t] | _ :: _ => inFlight s end).
Proof.
  intros Hcur Hprev. unfold taskEffect. rewrite Hcur.
  destruct (decide (prevTaskIdRef s = Some (task_id t))); [contradiction|].
  set (fresh := mkSession _ _ _ _ _ _ _).
  assert (Hhas : hasCurrentTask fresh = true).
  { rewrite (hasCurrentTask_tasks fresh s) by reflexivity.
    unfold hasCurrentTask. now rewrite Hcur. }
  unfold timerEffect, intervalArmed. rewrite Hhas. subst fresh.
  cbn [isPlaying timeLeft tasks totalTime localSteps prevTaskIdRef inFlight].
  rewrite !andb_true_r, andb_true_l.
  destruct (Z.ltb_spec 0 (estimatedMinutes t * 60)) as [Hpos|Hle].
  - destruct (Z.eqb_spec (estimatedMinutes t * 60) 0); [lia | reflexivity].
  - destruct (Z.eqb_spec (estimatedMinutes t * 60) 0); reflexivity.
Qed.

Lemma mount_on_pending (ts : list Task) (t : Task) :
  head (pendingTasks ts) = Some t →
  mount ts =
    mkSession ts (estimatedMinutes t * 60)
      (negb (estimatedMinutes t * 60 =? 0)) (estimatedMinutes t * 60)
      (steps t) (Some (task_id t))
      (match steps t with [] => [t] | _ :: _ => [] end).
Proof.
  intros Hhead. unfold mount. rewrite (effects_on_new_task (initialState ts) t).
  - unfold initialState. cbn [tasks inFlight]. now destruct (steps t).
  - exact Hhead.
  - unfold initialState. cbn [prevTaskIdRef]. discriminate.
Qed.

(** X7. Entering focus mode on a list whose first task that is not
    completed is [t] shows [t]: the total and the remaining time are its
    estimate in seconds, the steps are its stored steps, and a
    step-generation request is started exactly when it has none. The
    session is playing unless the estimate is zero; with an estimate of
    zero or less no tick ever changes the session. *)
Theorem mount_shows_first_pending (ts : list Task) (t : Task) :
  head (pendingTasks ts) = Some t →
  mount ts =
    mkSession ts (estimatedMinutes t * 60)
      (negb (estimatedMinutes t * 60 =? 0)) (estimatedMinutes t * 60)
      (steps t) (Some (task_id t))
      (match steps t with [] => [t] | _ :: _ => [] end) ∧
  (estimatedMinutes t ≤ 0 → ∀ n, Nat.iter n tick (mount ts) = mount ts).
Proof.
  intros Hhead. pose proof (mount_on_pending ts t Hhead) as Hmount.
  split; [exact Hmount|]. intros Hle n. apply iter_tick_unarmed.
  rewrite Hmount. unfold intervalArmed. cbn [isPlaying timeLeft].
  destruct (Z.ltb_spec 0 (estimatedMinutes t * 60)); [lia|].
  now rewrite andb_false_r.
Qed.

(** X8. Focus mode is idle from the start exactly when every task of the
    list is completed, the empty list included; the session is then the
    initial one, with no request started. *)
Theorem mount_idle_iff_all_completed (ts : list Task) :
  (phase (mount ts) = Idle ↔ allCompleted ts) ∧
  (allCompleted ts → mount ts = mkSession ts 0 true 0 [] None []).
Proof.
  assert (Hidle : allCompleted ts → mount ts = mkSession ts 0 true 0 [] None []).
  { intros Hall. apply pendingTasks_nil_iff in Hall.
    unfold mount, initialState, taskEffect, currentTask. cbn [tasks].
    rewrite Hall. cbn [head]. unfold timerEffect, intervalArmed, hasCurrentTask,
      currentTask. cbn [tasks isPlaying timeLeft]. now rewrite Hall. }
  split; [|exact Hidle]. split.
  - intros Hphase. apply pendingTasks_nil_iff.
    destruct (pendingTasks ts) as [|t rest] eqn:Hpend; [reflexivity|].
    assert (Hm : mount ts = _)
      by (apply (mount_on_pending ts t); now rewrite Hpend).
    rewrite Hm in Hphase. unfold phase, hasCurrentTask, currentTask in Hphase.
    cbn [tasks isPlaying timeLeft] in Hphase. rewrite Hpend in Hphase.
    cbn [head negb] in Hphase. destruct (negb _); [discriminate|].
    destruct (_ =? _); discriminate.
  - intros Hall. rewrite (Hidle Hall). apply pendingTasks_nil_iff in Hall.
    unfold phase, hasCurrentTask, currentTask. cbn [tasks]. now rewrite Hall.
Qed.

End SessionFacts.


(** ** Counting down, pausing and completing *)

Section CountdownFacts.
Import Focus Fixture.

Lemma tick_many_left ts (left : Z) total lsteps prev flying :
  hasCurrentTask (mkSession ts left true total lsteps prev flying) = true →
  1 < left →
  tick (mkSession ts left true total lsteps prev flying)
    = mkSession ts (left - 1) true total lsteps prev flying.
Proof.
  intros Hhas Hleft.
  assert (Hcur : ∀ a b c d e f, hasCurrentTask (mkSession ts a b c d e f) = true)
    by (intros; exact Hhas).
  unfold tick, intervalArmed. cbn [isPlaying timeLeft tasks totalTime localSteps
    prevTaskIdRef inFlight]. rewrite Hcur.
  destruct (Z.ltb_spec 0 left); [|lia]. cbn [andb].
  unfold timerEffect, intervalArmed. cbn [isPlaying timeLeft]. rewrite Hcur.
  destruct (Z.ltb_spec 0 (left - 1)); [reflexivity | lia].
Qed.

Lemma tick_one_left ts total lsteps prev flying :
  hasCurrentTask (mkSession ts 1 true total lsteps prev flying) = true →
  tick (mkSession ts 1 true total lsteps prev flying)
    = mkSession ts 0 false total lsteps prev flying.
Proof.
  intros Hhas.
  assert (Hcur : ∀ a b c d e f, hasCurrentTask (mkSession ts a b c d e f) = true)
    by (intros; exact Hhas).
  unfold tick, intervalArmed. cbn [isPlaying timeLeft tasks totalTime localSteps
    prevTaskIdRef inFlight]. rewrite Hcur. cbn.
  unfold timerEffect, intervalArmed. cbn [isPlaying timeLeft]. rewrite Hcur.
  reflexivity.
Qed.

Lemma iter_tick_running ts total lsteps prev flying (n k : nat) :
  hasCurrentTask (mkSession ts (Z.of_nat n) true total lsteps prev flying) = true →
  (k < n)%nat →
  Nat.iter k tick (mkSession ts (Z.of_nat n) true total lsteps prev flying)
    = mkSession ts (Z.of_nat (n - k)) true total lsteps prev flying.
Proof.
  intros Hhas. induction k as [|k IH]; intros Hk.
  - now rewrite Nat.sub_0_r.
  - change (Nat.iter (S k) tick ?s) with (tick (Nat.iter k tick s)).
    rewrite IH by lia. rewrite tick_many_left; [|exact Hhas | lia].
    f_equal. lia.
Qed.

Lemma iter_tick_expires ts total lsteps prev flying (n : nat) :
  hasCurrentTask (mkSession ts (Z.of_nat n) true total lsteps prev flying) = true →
  (0 < n)%nat →
  Nat.iter n tick (mkSession ts (Z.of_nat n) true total lsteps prev flying)
    = mkSession ts 0 false total lsteps prev flying.
Proof.
  intros Hhas Hn. destruct n as [|m]; [lia|].
  change (Nat.iter (S m) tick ?s) with (tick (Nat.iter m tick s)).
  rewrite iter_tick_running by (exact Hhas || lia).
  replace (Z.of_nat (S m - m)) with 1 by lia.
  now apply tick_one_left.
Qed.

(** X9. A running session with [n] seconds left, [n] positive, loses one
    second per tick: after [k] ticks, [k] at most [n], [n - k] seconds are
    left. After [n] ticks the time is zero and the session is stopped, with
    its tasks, total time, steps and requests as they were, and every later
    tick leaves that state as it is. *)
Theorem countdown_runs_to_zero (s : Session) (n : nat) :
  hasCurrentTask s = true → isPlaying s = true → timeLeft s = Z.of_nat n →
  (0 < n)%nat →
  Nat.iter n tick s
    = mkSession (tasks s) 0 false (totalTime s) (localSteps s)
        (prevTaskIdRef s) (inFlight s) ∧
  (∀ k, (k ≤ n)%nat → timeLeft (Nat.iter k tick s) = Z.of_nat (n - k)) ∧
  (∀ k, (n ≤ k)%nat → Nat.iter k tick s = Nat.iter n tick s).
Proof.
  destruct s as [ts left playing total lsteps prev flying].
  cbn [isPlaying timeLeft tasks totalTime localSteps prevTaskIdRef inFlight].
  intros Hhas -> -> Hn.
  pose proof (iter_tick_expires ts total lsteps prev flying n Hhas Hn) as Hend.
  split_and!.
  - exact Hend.
  - intros k Hk. destruct (decide (k = n)) as [->|Hne].
    + rewrite Hend. cbn [timeLeft]. lia.
    + now rewrite iter_tick_running by (exact Hhas || lia).
  - intros k Hk. replace k with ((k - n) + n)%nat by lia.
    rewrite Nat.iter_add, Hend. now apply iter_tick_unarmed.
Qed.

(** X10. Pausing a running session with time left stops it and keeps the
    remaining time; no tick changes the paused session; pressing the button
    again gives back the session as it was before the pause. *)
Theorem pause_and_resume (s : Session) :
  hasCurrentTask s = true → isPlaying s = true → 0 < timeLeft s →
  isPlaying (togglePlay s) = false ∧
  timeLeft (togglePlay s) = timeLeft s ∧
  phase (togglePlay s) = Paused ∧
  (∀ n, Nat.iter n tick (togglePlay s) = togglePlay s) ∧
  togglePlay (togglePlay s) = s.
Proof.
  destruct s as [ts left playing total lsteps prev flying].
  cbn [isPlaying timeLeft]. intros Hhas -> Hleft.
  assert (Hcur : ∀ a b c d e f, hasCurrentTask (mkSession ts a b c d e f) = true)
    by (intros; exact Hhas).
  assert (Hpause : togglePlay (mkSession ts left true total lsteps prev flying)
                   = mkSession ts left false total lsteps prev flying).
  { unfold togglePlay, timerEffect, intervalArmed.
    cbn [isPlaying timeLeft tasks totalTime localSteps prevTaskIdRef inFlight negb].
    rewrite Hcur. cbn [andb].
    destruct (Z.eqb_spec left 0); [lia | reflexivity]. }
  rewrite Hpause. cbn [isPlaying timeLeft]. split_and!; try reflexivity.
  - unfold phase. rewrite Hcur. cbn [negb isPlaying timeLeft].
    destruct (Z.eqb_spec left 0); [lia | reflexivity].
  - intros n. now apply iter_tick_unarmed.
  - unfold togglePlay, timerEffect, intervalArmed.
    cbn [isPlaying timeLeft tasks totalTime localSteps prevTaskIdRef inFlight negb].
    rewrite Hcur. destruct (Z.ltb_spec 0 left); [reflexivity | lia].
Qed.

(** X11. An expired session cannot be restarted: at zero seconds the play
    button leaves the stopped session as it is, and so does every tick. *)
Theorem expired_session_stays (s : Session) :
  hasCurrentTask s = true → isPlaying s = false → timeLeft s = 0 →
  phase s = Expired ∧ togglePlay s = s ∧ ∀ n, Nat.iter n tick s = s.
Proof.
  destruct s as [ts left playing total lsteps prev flying].
  cbn [isPlaying timeLeft]. intros Hhas -> ->.
  assert (Hcur : ∀ a b c d e f, hasCurrentTask (mkSession ts a b c d e f) = true)
    by (intros; exact Hhas).
  split_and!.
  - unfold phase. now rewrite Hcur.
  - unfold togglePlay, timerEffect, intervalArmed.
    cbn [isPlaying timeLeft tasks totalTime localSteps prevTaskIdRef inFlight negb].
    now rewrite Hcur.
  - intros n. now apply iter_tick_unarmed.
Qed.

(** X12. [handleCompleteTask] marks as completed every task with the given
    id and nothing else: the tasks still to do are the previous ones without
    those of that id, in the same order; the list keeps its length and its
    identifiers; a task that was completed stays where it was, unchanged;
    and completing the same id again changes nothing. *)
Theorem complete_marks_only_that_id (k : string) (ts : list Task) :
  pendingTasks (handleCompleteTask k ts)
    = filter (λ t, task_id t ≠ k) (pendingTasks ts) ∧
  length (handleCompleteTask k ts) = length ts ∧
  task_id <$> handleCompleteTask k ts = task_id <$> ts ∧
  (∀ i t, ts !! i = Some t → status t = completed →
          handleCompleteTask k ts !! i = Some t) ∧
  (∀ i t, ts !! i = Some t → task_id t ≠ k →
          handleCompleteTask k ts !! i = Some t) ∧
  handleCompleteTask k (handleCompleteTask k ts) = handleCompleteTask k ts.
Proof.
  split_and!.
  - apply pendingTasks_handleCompleteTask.
  - apply length_map.
  - unfold handleCompleteTask. induction ts as [|t ts IH]; [reflexivity|].
    cbn [map]. rewrite !fmap_cons, IH. now destruct (String.eqb _ _).
  - intros i t Hi Hdone. unfold handleCompleteTask.
    change (map ?f ts) with (f <$> ts). rewrite list_lookup_fmap, Hi.
    cbn. destruct (String.eqb _ _); [|reflexivity].
    destruct t. cbn in Hdone. now subst.
  - intros i t Hi Hne. unfold handleCompleteTask.
    change (map ?f ts) with (f <$> ts). rewrite list_lookup_fmap, Hi.
    cbn. apply String.eqb_neq in Hne. now rewrite Hne.
  - unfold handleCompleteTask. rewrite map_map. apply map_ext. intros t.
    destruct (String.eqb (task_id t) k) eqn:Heq; cbn [task_id withStatus].
    + now rewrite Heq.
    + now rewrite Heq.
Qed.

Lemma commit_on_new_task (r : Session) (t : Task) :
  currentTask r = Some t → prevTaskIdRef r ≠ Some (task_id t) →
  commitNewTask r =
    mkSession (tasks r) (estimatedMinutes t * 60)
      (negb (timeLeft r =? 0) && negb (estimatedMinutes t * 60 =? 0))
      (estimatedMinutes t * 60) (steps t) (Some (task_id t))
      (match steps t with [] => inFlight r ++ [t] | _ :: _ => inFlight r end).
Proof.
  intros Hcur Hprev.
  assert (Hhas : ∀ a b c d e f,
            hasCurrentTask (mkSession (tasks r) a b c d e f) = true).
  { intros. unfold hasCurrentTask, currentTask. cbn [tasks].
    unfold currentTask in Hcur. now rewrite Hcur. }
  assert (Hhasr : hasCurrentTask r = true)
    by (unfold hasCurrentTask; now rewrite Hcur).
  assert (Htask : taskEffect r =
            mkSession (tasks r) (estimatedMinutes t * 60) true
              (estimatedMinutes t * 60) (steps t) (Some (task_id t))
              (match steps t with [] => inFlight r ++ [t] | _ :: _ => inFlight r end)).
  { unfold taskEffect. rewrite Hcur.
    destruct (decide (prevTaskIdRef r = Some (task_id t))); [contradiction | reflexivity]. }
  assert (Hplay : ∀ fl,
            timerEffect (mkSession (tasks r) (estimatedMinutes t * 60) true
                           (estimatedMinutes t * 60) (steps t) (Some (task_id t)) fl)
            = mkSession (tasks r) (estimatedMinutes t * 60)
                (negb (estimatedMinutes t * 60 =? 0))
                (estimatedMinutes t * 60) (steps t) (Some (task_id t)) fl).
  { intros fl. unfold timerEffect, intervalArmed. cbn [isPlaying timeLeft].
    rewrite Hhas, !andb_true_r, andb_true_l.
    cbn [tasks totalTime localSteps prevTaskIdRef inFlight].
    destruct (Z.ltb_spec 0 (estimatedMinutes t * 60));
      destruct (Z.eqb_spec (estimatedMinutes t * 60) 0); try lia; reflexivity. }
  assert (Hstop : ∀ fl,
            timerEffect (mkSession (tasks r) (estimatedMinutes t * 60) false
                           (estimatedMinutes t * 60) (steps t) (Some (task_id t)) fl)
            = mkSession (tasks r) (estimatedMinutes t * 60) false
                (estimatedMinutes t * 60) (steps t) (Some (task_id t)) fl).
  { intros fl. unfold timerEffect, intervalArmed. cbn [isPlaying timeLeft andb].
    rewrite Hhas, andb_true_r.
    cbn [tasks totalTime localSteps prevTaskIdRef inFlight].
    destruct (estimatedMinutes t * 60 =? 0); reflexivity. }
  unfold commitNewTask. rewrite Htask. unfold timerEffectOn.
  rewrite Hhasr, andb_true_r.
  destruct (intervalArmed r) eqn:Harmed.
  - unfold intervalArmed in Harmed.
    apply andb_true_iff in Harmed as [Harmed _].
    apply andb_true_iff in Harmed as [_ Hpos]. apply Z.ltb_lt in Hpos.
    destruct (Z.eqb_spec (timeLeft r) 0); [lia|]. cbn [negb andb]. apply Hplay.
  - destruct (Z.eqb_spec (timeLeft r) 0); cbn [negb andb].
    + cbn [tasks timeLeft totalTime localSteps prevTaskIdRef inFlight]. apply Hstop.
    + apply Hplay.
Qed.

Lemma commit_without_task (r : Session) :
  currentTask r = None → commitNewTask r = r.
Proof.
  intros Hnone.
  assert (Hhas : hasCurrentTask r = false)
    by (unfold hasCurrentTask; now rewrite Hnone).
  assert (Hoff : intervalArmed r = false)
    by (unfold intervalArmed; now rewrite Hhas, andb_false_r).
  assert (Htask : taskEffect r = r) by (unfold taskEffect; now rewrite Hnone).
  unfold commitNewTask. rewrite Htask. unfold timerEffectOn.
  rewrite Hoff, Hhas, andb_false_r. unfold timerEffect.
  now rewrite Hoff, Hhas, andb_false_r.
Qed.

(** Entering focus mode is the same commit on the first render: there the
    render the timer effect reads already holds the values of the reset. *)
Lemma mount_is_commit (ts : list Task) : mount ts = commitNewTask (initialState ts).
Proof.
  destruct (head (pendingTasks ts)) as [t|] eqn:Hhead.
  - rewrite (mount_on_pending ts t Hhead).
    rewrite (commit_on_new_task (initialState ts) t);
      [|exact Hhead | unfold initialState; cbn [prevTaskIdRef]; discriminate].
    unfold initialState. rewrite Hhead.
    cbn [tasks timeLeft inFlight]. rewrite andb_diag.
    now destruct (steps t).
  - rewrite (commit_without_task (initialState ts)) by exact Hhead.
    unfold mount, taskEffect, currentTask, initialState. cbn [tasks].
    rewrite Hhead. unfold timerEffect, intervalArmed, hasCurrentTask, currentTask.
    cbn [tasks isPlaying timeLeft]. rewrite Hhead.
    now rewrite !andb_false_r.
Qed.

(** X13. With pairwise distinct task ids, marking the current task done
    moves the session to the next task that is not completed: it becomes
    the current task, the total and the remaining time are its estimate in
    seconds, its stored steps are shown, and a step-generation request is
    started exactly when it has none. The requests started earlier stay in
    flight. The new task is playing unless the task marked done had no
    time left or the new estimate is zero: the timer effect of the commit
    still reads the expired time and stops the session after the reset has
    started it. *)
Theorem complete_advances_to_next
    (s : Session) (t next : Task) (rest : list Task) :
  NoDup (task_id <$> tasks s) →
  pendingTasks (tasks s) = t :: next :: rest →
  prevTaskIdRef s = Some (task_id t) →
  pendingTasks (tasks (completeCurrent s)) = next :: rest ∧
  completeCurrent s =
    mkSession (handleCompleteTask (task_id t) (tasks s))
      (estimatedMinutes next * 60)
      (negb (timeLeft s =? 0) && negb (estimatedMinutes next * 60 =? 0))
      (estimatedMinutes next * 60) (steps next) (Some (task_id next))
      (match steps next with [] => inFlight s ++ [next] | _ :: _ => inFlight s end).
Proof.
  intros Hnd Hpend Hprev.
  pose proof (pendingTasks_ids_NoDup _ Hnd) as Hpnd.
  rewrite Hpend, !fmap_cons in Hpnd.
  apply NoDup_cons in Hpnd as [Hfresh _].
  assert (Hafter : pendingTasks (handleCompleteTask (task_id t) (tasks s))
                   = next :: rest).
  { rewrite pendingTasks_handleCompleteTask, Hpend, filter_cons.
    destruct (decide (task_id t ≠ task_id t)) as [Habs|_]; [now destruct Habs|].
    now apply filter_other_ids. }
  assert (Hne : task_id t ≠ task_id next).
  { intros Heq. apply Hfresh. rewrite Heq. apply list_elem_of_here. }
  assert (Hstep : completeCurrent s =
    mkSession (handleCompleteTask (task_id t) (tasks s))
      (estimatedMinutes next * 60)
      (negb (timeLeft s =? 0) && negb (estimatedMinutes next * 60 =? 0))
      (estimatedMinutes next * 60) (steps next) (Some (task_id next))
      (match steps next with [] => inFlight s ++ [next] | _ :: _ => inFlight s end)).
  { unfold completeCurrent, currentTask. rewrite Hpend. cbn [head].
    rewrite (commit_on_new_task _ next); [reflexivity | |].
    - unfold currentTask. cbn [tasks]. now rewrite Hafter.
    - cbn [prevTaskIdRef]. rewrite Hprev. congruence. }
  split; [|exact Hstep]. rewrite Hstep. cbn [tasks]. exact Hafter.
Qed.

(** X14. Marking done the only task that is left ends the session: every
    task of the list is then completed, the session is idle, the timer
    fields are not touched, and a further press changes nothing. *)
Theorem complete_last_goes_idle (s : Session) (t : Task) :
  pendingTasks (tasks s) = [t] →
  completeCurrent s =
    mkSession (handleCompleteTask (task_id t) (tasks s)) (timeLeft s)
      (isPlaying s) (totalTime s) (localSteps s) (prevTaskIdRef s) (inFlight s) ∧
  allCompleted (tasks (completeCurrent s)) ∧
  phase (completeCurrent s) = Idle ∧
  completeCurrent (completeCurrent s) = completeCurrent s.
Proof.
  intros Hpend.
  assert (Hafter : pendingTasks (handleCompleteTask (task_id t) (tasks s)) = []).
  { rewrite pendingTasks_handleCompleteTask, Hpend, filter_cons.
    destruct (decide (task_id t ≠ task_id t)) as [Habs|_]; [now destruct Habs|].
    reflexivity. }
  assert (Hstep : completeCurrent s =
    mkSession (handleCompleteTask (task_id t) (tasks s)) (timeLeft s)
      (isPlaying s) (totalTime s) (localSteps s) (prevTaskIdRef s) (inFlight s)).
  { unfold completeCurrent, currentTask. rewrite Hpend. cbn [head].
    apply commit_without_task. unfold currentTask. cbn [tasks].
    now rewrite Hafter. }
  rewrite Hstep. split_and!.
  - reflexivity.
  - cbn [tasks]. now apply pendingTasks_nil_iff.
  - unfold phase, hasCurrentTask, currentTask. cbn [tasks]. now rewrite Hafter.
  - unfold completeCurrent, currentTask. cbn [tasks]. now rewrite Hafter.
Qed.

(** X15. The steps built from generated strings keep the strings and their
    order as texts, are all unchecked, and carry the identifiers drawn for
    them in that order. *)
Theorem toSteps_keeps_texts (uuid : nat → string) (generated : list string) :
  step_text <$> toSteps uuid generated = generated ∧
  step_id <$> toSteps uuid generated = uuid <$> seq 0 (length generated) ∧
  Forall (λ st, isCompleted st = false) (toSteps uuid generated) ∧
  length (toSteps uuid generated) = length generated.
Proof.
  unfold toSteps. split_and!.
  - apply list_eq. intros i.
    rewrite list_lookup_fmap, list_lookup_imap.
    now destruct (generated !! i).
  - apply list_eq. intros i.
    rewrite !list_lookup_fmap, list_lookup_imap.
    destruct (generated !! i) eqn:Hi; cbn.
    + rewrite lookup_seq_lt by (now apply lookup_lt_Some in Hi). reflexivity.
    + rewrite lookup_seq_ge by (now apply lookup_ge_None in Hi). reflexivity.
  - apply Forall_forall. intros st Hst.
    apply elem_of_lookup_imap_1 in Hst as (i & text & -> & _). reflexivity.
  - apply length_imap.
Qed.

End CountdownFacts.


(** ** Cleaning payloads and generating steps *)

Section PayloadFacts.
Import Payload StepGen.

Lemma append_Empty_r (s : string) : s +:+ EmptyString = s.
Proof.
  induction s as [|c s IH]; [reflexivity|]. rewrite append_String. now f_equal.
Qed.

Lemma prefix_other_head (c d : ascii) (p s : string) :
  d ≠ c → String.prefix (String d p) (String c s) = false.
Proof. intros Hne. cbn. destruct (ascii_dec d c); [contradiction | reflexivity]. Qed.

Lemma prefix_same_head (c : ascii) (p s : string) :
  String.prefix (String c p) (String c s) = String.prefix p s.
Proof. cbn. destruct (ascii_dec c c); [reflexivity | contradiction]. Qed.

Lemma replaceFences_no_fence (c : ascii) (rest : string) :
  c ≠ backtick →
  replaceFences 0 (String c rest) = String c (replaceFences 0 rest).
Proof.
  intros Hne. cbn [replaceFences].
  change (fenceJson +:+ newline) with (String backtick ("``json" +:+ newline)).
  change fenceJson with (String backtick "``json").
  change fence with (String backtick "``").
  rewrite !prefix_other_head by congruence. reflexivity.
Qed.

Lemma replaceFences_free_app (body tail : string) :
  backtickFree body = true →
  replaceFences 0 (body +:+ tail) = body +:+ replaceFences 0 tail.
Proof.
  induction body as [|c body IH]; intros Hfree; [reflexivity|].
  cbn [backtickFree] in Hfree. apply andb_true_iff in Hfree as [Hc Hrest].
  rewrite !append_String, replaceFences_no_fence, IH by
    (try exact Hrest; intros ->; now rewrite Ascii.eqb_refl in Hc).
  reflexivity.
Qed.

Lemma replaceFences_skip (k : nat) (dropped tail : string) :
  String.length dropped = k →
  replaceFences k (dropped +:+ tail) = replaceFences 0 tail.
Proof.
  revert k. induction dropped as [|c dropped IH]; intros k Hlen.
  - cbn in Hlen. now subst.
  - cbn in Hlen. subst k. rewrite append_String. cbn [replaceFences].
    now apply IH.
Qed.

Lemma prefix_before_backtick (p body tail : string) :
  backtickFree p = true →
  String.prefix p (body +:+ String backtick tail) = true →
  String.prefix p body = true.
Proof.
  revert body. induction p as [|a p IH]; intros body Hfree Hpre.
  - now destruct body.
  - cbn [backtickFree] in Hfree. apply andb_true_iff in Hfree as [Ha Hp].
    assert (Hne : a ≠ backtick) by (intros ->; now rewrite Ascii.eqb_refl in Ha).
    destruct body as [|b body].
    + rewrite append_Empty, prefix_other_head in Hpre by exact Hne. discriminate.
    + rewrite append_String in Hpre. cbn in Hpre |- *.
      destruct (ascii_dec a b); [now apply IH | discriminate].
Qed.

Lemma replaceFences_closing : replaceFences 0 fence = EmptyString.
Proof. reflexivity. Qed.

(** X16. Text without a backtick holds no fence, and the replacement
    returns it as it is, so that cleaning it only trims it. *)
Theorem unfenced_text_is_only_trimmed (trim : string → string) (str : string) :
  backtickFree str = true →
  replaceFences 0 str = str ∧ cleanJsonString trim str = trim str.
Proof.
  intros Hfree.
  assert (Hsame : replaceFences 0 str = str).
  { rewrite <- (append_Empty_r str) at 1.
    rewrite replaceFences_free_app by exact Hfree. apply append_Empty_r. }
  split; [exact Hsame|]. unfold cleanJsonString. now rewrite Hsame.
Qed.

(** X17. A payload without backticks that is wrapped in a json fence with
    its newline and a closing fence is unwrapped: both fences go and the
    payload stays. The same holds for a plain opening fence, provided the
    payload does not begin with the word that would make it a json
    fence. *)
Theorem fenced_payload_is_unwrapped (trim : string → string) (body : string) :
  backtickFree body = true →
  replaceFences 0 (fenceJson +:+ newline +:+ body +:+ fence) = body ∧
  cleanJsonString trim (fenceJson +:+ newline +:+ body +:+ fence) = trim body ∧
  (String.prefix "json" body = false →
   replaceFences 0 (fence +:+ body +:+ fence) = body).
Proof.
  intros Hfree.
  assert (Hbody : ∀ k dropped, String.length dropped = k →
            replaceFences k (dropped +:+ body +:+ fence) = body).
  { intros k dropped Hlen. rewrite replaceFences_skip by exact Hlen.
    rewrite replaceFences_free_app by exact Hfree.
    rewrite replaceFences_closing. apply append_Empty_r. }
  assert (Hjson : replaceFences 0 (fenceJson +:+ newline +:+ body +:+ fence) = body).
  { change (fenceJson +:+ newline +:+ body +:+ fence)
      with (String backtick (("``json" +:+ newline) +:+ body +:+ fence)).
    cbn [replaceFences].
    assert (Hpre : String.prefix (fenceJson +:+ newline)
              (String backtick (("``json" +:+ newline) +:+ body +:+ fence)) = true).
    { apply prefix_true_iff. exists (body +:+ fence). reflexivity. }
    rewrite Hpre. now apply Hbody. }
  split_and!.
  - exact Hjson.
  - unfold cleanJsonString. now rewrite Hjson.
  - intros Hword.
    change (fence +:+ body +:+ fence)
      with (String backtick ("``" +:+ body +:+ fence)).
    cbn [replaceFences].
    assert (Hnojson : String.prefix fenceJson
              (String backtick ("``" +:+ body +:+ fence)) = false).
    { change fenceJson with (String backtick (String backtick (String backtick "json"))).
      change ("``" +:+ body +:+ fence)
        with (String backtick (String backtick (body +:+ fence))).
      rewrite !prefix_same_head.
      destruct (String.prefix "json" (body +:+ fence)) eqn:Hp; [|reflexivity].
      apply (prefix_before_backtick "json" body "``") in Hp; [congruence | reflexivity]. }
    assert (Hnonl : String.prefix (fenceJson +:+ newline)
              (String backtick ("``" +:+ body +:+ fence)) = false).
    { destruct (String.prefix (fenceJson +:+ newline) _) eqn:Hp; [|reflexivity].
      apply prefix_true_iff in Hp as [post Hp].
      assert (Habs : String.prefix fenceJson
                (String backtick ("``" +:+ body +:+ fence)) = true).
      { apply prefix_true_iff. exists (newline +:+ post).
        rewrite Hp. now rewrite append_assoc. }
      congruence. }
    assert (Hfence : String.prefix fence
              (String backtick ("``" +:+ body +:+ fence)) = true).
    { apply prefix_true_iff. exists (body +:+ fence). reflexivity. }
    rewrite Hnonl, Hnojson, Hfence. now apply Hbody.
Qed.

(** X18. [generateStepsForTask] returns an empty list of steps in one case
    only: the service answered with a non-empty text that parses to the
    empty array. No failure path and no empty answer yields an empty
    list. *)
Theorem generated_steps_empty_iff
    (parseCleaned : string → option (list string)) (outcome : ServiceOutcome) :
  generateStepsForTask parseCleaned outcome = [] ↔
  ∃ c text, outcome = CallReturns (Some (String c text)) ∧
            parseCleaned (String c text) = Some [].
Proof.
  split.
  - destruct outcome as [|[[|c text]|]]; cbn; try discriminate.
    destruct (parseCleaned (String c text)) as [parsed|] eqn:Hparse;
      [|discriminate].
    intros ->. eauto.
  - intros (c & text & -> & Hparse). cbn. now rewrite Hparse.
Qed.

End PayloadFacts.


(** ** The planning screen *)

Section DashboardFacts.
Import Dashboard Payload Fixture.

Lemma removeTask_at (ts : list Task) (i : nat) (t : Task) :
  NoDup (task_id <$> ts) → ts !! i = Some t →
  removeTask (task_id t) ts = delete i ts.
Proof.
  unfold removeTask. revert i.
  induction ts as [|y ts IH]; intros i Hnd Hi; [discriminate|].
  rewrite fmap_cons in Hnd. apply NoDup_cons in Hnd as [Hy Hnd].
  rewrite filter_cons. destruct i as [|i].
  - injection Hi as ->.
    destruct (decide (task_id t ≠ task_id t)) as [Habs|_]; [now destruct Habs|].
    now apply filter_other_ids.
  - cbn in Hi. destruct (decide (task_id y ≠ task_id t)) as [_|Heq].
    + change (delete (S i) (y :: ts)) with (y :: delete i ts).
      f_equal. now apply IH.
    + exfalso. apply Hy. apply dec_stable in Heq. rewrite Heq.
      apply list_elem_of_fmap. exists t. split; [reflexivity|].
      eapply list_elem_of_lookup_2. exact Hi.
Qed.

(** X19. With pairwise distinct task ids, the remove button of a task
    removes that task and no other: the list is the previous one without
    the entry at the position of the task, and the total of the estimates
    drops by the estimate of the task. *)
Theorem removeTask_removes_exactly (ts : list Task) (i : nat) (t : Task) :
  NoDup (task_id <$> ts) → ts !! i = Some t →
  removeTask (task_id t) ts = delete i ts ∧
  length (removeTask (task_id t) ts) = (length ts - 1)%nat ∧
  totalMinutes (removeTask (task_id t) ts) = totalMinutes ts - estimatedMinutes t.
Proof.
  intros Hnd Hi. rewrite (removeTask_at ts i t Hnd Hi). split_and!.
  - reflexivity.
  - apply length_delete. eauto.
  - rewrite (totalMinutes_lookup ts i t Hi). lia.
Qed.

(** X20. [removeTask] never leaves a task with the given id, keeps the
    other tasks in their order, and does nothing when no task has the
    id. *)
Theorem removeTask_clears_id (k : string) (ts : list Task) :
  (k ∉ task_id <$> removeTask k ts) ∧
  (removeTask k ts `sublist_of` ts) ∧
  (∀ t, t ∈ ts → task_id t ≠ k → t ∈ removeTask k ts) ∧
  (k ∉ task_id <$> ts → removeTask k ts = ts).
Proof.
  unfold removeTask. split_and!.
  - intros Hin. apply list_elem_of_fmap in Hin as (t & Hk & Ht).
    apply list_elem_of_filter in Ht as [Hne _]. congruence.
  - apply sublist_filter.
  - intros t Ht Hne. apply list_elem_of_filter. now split.
  - apply filter_other_ids.
Qed.

Lemma toSteps_texts (uuid : nat → string) (generated : list string) :
  step_text <$> Focus.toSteps uuid generated = generated.
Proof.
  unfold Focus.toSteps. apply list_eq. intros i.
  rewrite list_lookup_fmap, list_lookup_imap. now destruct (generated !! i).
Qed.

Lemma toSteps_unchecked (uuid : nat → string) (generated : list string) :
  Forall (λ st, isCompleted st = false) (Focus.toSteps uuid generated).
Proof.
  unfold Focus.toSteps. apply Forall_forall. intros st Hst.
  apply elem_of_lookup_imap_1 in Hst as (i & text & -> & _). reflexivity.
Qed.

(** X21. Capturing an image never touches the tasks that are there: they
    stay at the front of the list, whatever the analysis gave. Each
    analysed task is appended in order as a pending task with the drawn id,
    the title and the estimate as analysed (the estimate is not checked),
    and one unchecked step per analysed string. *)
Theorem captured_tasks_are_appended `{!LowerCase}
    (taskUuid : nat → string) (stepUuid : nat → nat → string) (now : nat → Z)
    (analysis : option (list AITaskResponse)) (prev : list Task) :
  take (length prev) (handleImageCaptured taskUuid stepUuid now analysis prev)
    = prev ∧
  length (handleImageCaptured taskUuid stepUuid now analysis prev)
    = (length prev + length (default [] analysis))%nat ∧
  ∀ i a, default [] analysis !! i = Some a →
    ∃ t, handleImageCaptured taskUuid stepUuid now analysis prev
           !! (length prev + i)%nat = Some t ∧
         task_id t = taskUuid i ∧ title t = ai_title a ∧
         subject t = mapSubject (ai_subject a) ∧
         estimatedMinutes t = ai_estimatedMinutes a ∧
         status t = pending ∧
         step_text <$> steps t = ai_steps a ∧
         Forall (λ st, isCompleted st = false) (steps t).
Proof.
  destruct analysis as [aiTasks|]; cbn [handleImageCaptured].
  - change (default [] (Some aiTasks)) with aiTasks. split_and!.
    + now rewrite take_app_length.
    + now rewrite length_app, length_imap.
    + intros i a Hi. eexists. split.
      * rewrite lookup_app_r by lia.
        replace (length prev + i - length prev)%nat with i by lia.
        rewrite list_lookup_imap, Hi. reflexivity.
      * cbn [toTask task_id title subject estimatedMinutes status steps].
        split_and!; try reflexivity;
          [apply toSteps_texts | apply toSteps_unchecked].
  - change (default [] (@None (list AITaskResponse))) with (@nil AITaskResponse).
    split_and!.
    + now rewrite take_ge by lia.
    + cbn. lia.
    + intros i a Hi. discriminate.
Qed.


(** X25. Capturing an image changes the task list in one case only: the
    service answered with a non-empty text that parses to a non-empty array
    of tasks. A request that throws, a missing or empty text, a text that
    does not parse and an empty array all leave the list as it is. *)
Theorem capture_changes_list_iff `{!LowerCase}
    (parseCleaned : string → option (list AITaskResponse))
    (outcome : StepGen.ServiceOutcome)
    (taskUuid : nat → string) (stepUuid : nat → nat → string) (now : nat → Z)
    (prev : list Task) :
  handleImageCaptured taskUuid stepUuid now
      (analyzeHomeworkImage parseCleaned outcome) prev ≠ prev
  ↔ ∃ c text a rest,
      outcome = StepGen.CallReturns (Some (String c text)) ∧
      parseCleaned (String c text) = Some (a :: rest).
Proof.
  split.
  - intros Hchanged.
    destruct outcome as [|[[|c text]|]]; cbn in Hchanged;
      try (rewrite ?app_nil_r in Hchanged; congruence).
    destruct (parseCleaned (String c text)) as [[|a rest]|] eqn:Hparse;
      cbn in Hchanged; try (rewrite ?app_nil_r in Hchanged; congruence).
    eauto 6.
  - intros (c & text & a & rest & -> & Hparse) Hsame.
    cbn in Hsame. rewrite Hparse in Hsame. cbn in Hsame.
    apply (f_equal length) in Hsame. rewrite length_app in Hsame.
    cbn in Hsame. lia.
Qed.



(** X24. With the lower-casing of ASCII letters, [mapSubject] maps the name
    of every subject back to that subject. *)
Theorem mapSubject_of_subject_name (s : SubjectType) :
  @mapSubject asciiLowerCase (subjectValue s) = s.
Proof. destruct s; vm_compute; reflexivity. Qed.

End DashboardFacts.


(** ** Further concrete runs *)

Section MoreRuns.
Import Agent Spec Focus StepGen Payload Dashboard Fixture.

Local Ltac evaluate := vm_compute; first [reflexivity | exact I].

Local Ltac evaluate_all :=
  repeat (apply Forall_cons_2; [evaluate|]); apply Forall_nil_2.

Local Ltac decide_it := apply (bool_decide_unpack _); vm_compute; exact I.

Lemma reply_keeps_ids_distinct_witness :
  NoDup (task_id <$> Sample.plan) ∧
  NoDup (task_id <$>
           handleSend (AgentReplies None [reorderTask "lab" 1; deleteTask "essay"])
             Sample.plan).
Proof.
  assert (Hnd : NoDup (task_id <$> Sample.plan)) by decide_it.
  split; [exact Hnd|]. exact (reply_keeps_ids_distinct _ _ Hnd).
Defined.

Lemma reorder_batch_permutes_witness :
  Forall isReorder [reorderTask "lab" 1; reorderTask "zzz" 2; reorderTask "algebra" 9] ∧
  handleSend
    (AgentReplies None [reorderTask "lab" 1; reorderTask "zzz" 2; reorderTask "algebra" 9])
    Sample.plan ≡ₚ Sample.plan.
Proof.
  assert (Hall : Forall isReorder
            [reorderTask "lab" 1; reorderTask "zzz" 2; reorderTask "algebra" 9])
    by evaluate_all.
  split; [exact Hall|]. exact (proj2 (reorder_batch_permutes None _ Sample.plan Hall)).
Defined.


Lemma resolved_call_total_witness :
  findIndex (toLowerCase (taskKeyword (updateTaskTime "essay" 45)))
    (newTasks Sample.loopStart) = Some (1%nat, Sample.essay) ∧
  totalMinutes (newTasks (applyCall Sample.loopStart (updateTaskTime "essay" 45)))
    = totalMinutes (newTasks Sample.loopStart) + 15.
Proof.
  assert (Hfind : findIndex (toLowerCase (taskKeyword (updateTaskTime "essay" 45)))
                    (newTasks Sample.loopStart) = Some (1%nat, Sample.essay))
    by evaluate.
  split; [exact Hfind|].
  exact (resolved_call_total Sample.loopStart (updateTaskTime "essay" 45) _ _ Hfind).
Defined.

Lemma mount_shows_first_pending_witness :
  head (pendingTasks week) = Some Sample.algebra ∧
  mount week = mkSession week 1200 true 1200 [] (Some "t1") [Sample.algebra].
Proof.
  assert (Hhead : head (pendingTasks week) = Some Sample.algebra) by evaluate.
  split; [exact Hhead|]. exact (proj1 (mount_shows_first_pending week _ Hhead)).
Defined.

Lemma countdown_runs_to_zero_witness :
  hasCurrentTask ninetySeconds = true ∧ isPlaying ninetySeconds = true ∧
  timeLeft ninetySeconds = Z.of_nat 90 ∧ (0 < 90)%nat ∧
  Nat.iter 90 tick ninetySeconds
    = mkSession [spelling; Sample.essay; Sample.lab] 0 false 1800
        [Sample.stepRead] (Some "t2") [].
Proof.
  assert (Hhas : hasCurrentTask ninetySeconds = true) by evaluate.
  assert (Hplay : isPlaying ninetySeconds = true) by evaluate.
  assert (Hleft : timeLeft ninetySeconds = Z.of_nat 90) by evaluate.
  assert (Hpos : (0 < 90)%nat) by lia.
  split; [exact Hhas|]. split; [exact Hplay|]. split; [exact Hleft|].
  split; [exact Hpos|].
  exact (proj1 (countdown_runs_to_zero ninetySeconds 90 Hhas Hplay Hleft Hpos)).
Defined.

Lemma pause_and_resume_witness :
  hasCurrentTask ninetySeconds = true ∧ isPlaying ninetySeconds = true ∧
  0 < timeLeft ninetySeconds ∧
  phase (togglePlay ninetySeconds) = Paused ∧
  togglePlay (togglePlay ninetySeconds) = ninetySeconds.
Proof.
  assert (Hhas : hasCurrentTask ninetySeconds = true) by evaluate.
  assert (Hplay : isPlaying ninetySeconds = true) by evaluate.
  assert (Hleft : 0 < timeLeft ninetySeconds) by evaluate.
  split; [exact Hhas|]. split; [exact Hplay|]. split; [exact Hleft|].
  destruct (pause_and_resume ninetySeconds Hhas Hplay Hleft)
    as (_ & _ & Hphase & _ & Hback).
  split; [exact Hphase | exact Hback].
Defined.

Lemma expired_session_stays_witness :
  hasCurrentTask expired = true ∧ isPlaying expired = false ∧
  timeLeft expired = 0 ∧ togglePlay expired = expired.
Proof.
  assert (Hhas : hasCurrentTask expired = true) by evaluate.
  assert (Hplay : isPlaying expired = false) by evaluate.
  assert (Hleft : timeLeft expired = 0) by evaluate.
  split; [exact Hhas|]. split; [exact Hplay|]. split; [exact Hleft|].
  exact (proj1 (proj2 (expired_session_stays expired Hhas Hplay Hleft))).
Defined.

Lemma complete_advances_to_next_witness :
  NoDup (task_id <$> tasks ninetySeconds) ∧
  pendingTasks (tasks ninetySeconds) = [Sample.essay; Sample.lab] ∧
  prevTaskIdRef ninetySeconds = Some (task_id Sample.essay) ∧
  pendingTasks (tasks (completeCurrent ninetySeconds)) = [Sample.lab] ∧
  timeLeft (completeCurrent ninetySeconds) = 900 ∧
  isPlaying (completeCurrent ninetySeconds) = true ∧
  NoDup (task_id <$> tasks expiredWithNext) ∧
  pendingTasks (tasks expiredWithNext) = [Sample.essay; Sample.lab] ∧
  prevTaskIdRef expiredWithNext = Some (task_id Sample.essay) ∧
  timeLeft (completeCurrent expiredWithNext) = 900 ∧
  isPlaying (completeCurrent expiredWithNext) = false.
Proof.
  assert (Hnd : NoDup (task_id <$> tasks ninetySeconds)) by decide_it.
  assert (Hpend : pendingTasks (tasks ninetySeconds) = [Sample.essay; Sample.lab])
    by evaluate.
  assert (Hprev : prevTaskIdRef ninetySeconds = Some (task_id Sample.essay))
    by evaluate.
  assert (Hnd' : NoDup (task_id <$> tasks expiredWithNext)) by decide_it.
  assert (Hpend' : pendingTasks (tasks expiredWithNext) = [Sample.essay; Sample.lab])
    by evaluate.
  assert (Hprev' : prevTaskIdRef expiredWithNext = Some (task_id Sample.essay))
    by evaluate.
  destruct (complete_advances_to_next ninetySeconds _ _ _ Hnd Hpend Hprev)
    as [Hafter Hstep].
  destruct (complete_advances_to_next expiredWithNext _ _ _ Hnd' Hpend' Hprev')
    as [_ Hstep'].
  split_and!; try assumption.
  - rewrite Hstep. reflexivity.
  - rewrite Hstep. reflexivity.
  - rewrite Hstep'. reflexivity.
  - rewrite Hstep'. reflexivity.
Defined.

Lemma complete_last_goes_idle_witness :
  pendingTasks (tasks lastOne) = [Sample.lab] ∧
  phase (completeCurrent lastOne) = Idle ∧
  timeLeft (completeCurrent lastOne) = 40.
Proof.
  assert (Hpend : pendingTasks (tasks lastOne) = [Sample.lab]) by evaluate.
  split; [exact Hpend|].
  destruct (complete_last_goes_idle lastOne _ Hpend) as (Hstep & _ & Hphase & _).
  split; [exact Hphase|]. rewrite Hstep. reflexivity.
Defined.

Lemma unfenced_text_is_only_trimmed_witness :
  backtickFree "[1, 2]" = true ∧
  cleanJsonString trimNothing "[1, 2]" = "[1, 2]".
Proof.
  assert (Hfree : backtickFree "[1, 2]" = true) by evaluate.
  split; [exact Hfree|].
  exact (proj2 (unfenced_text_is_only_trimmed trimNothing _ Hfree)).
Defined.

Lemma fenced_payload_is_unwrapped_witness :
  backtickFree "[1, 2]" = true ∧
  replaceFences 0 (fenceJson +:+ newline +:+ "[1, 2]" +:+ fence) = "[1, 2]".
Proof.
  assert (Hfree : backtickFree "[1, 2]" = true) by evaluate.
  split; [exact Hfree|].
  exact (proj1 (fenced_payload_is_unwrapped trimNothing _ Hfree)).
Defined.

Lemma removeTask_removes_exactly_witness :
  NoDup (task_id <$> week) ∧ week !! 2%nat = Some Sample.essay ∧
  removeTask "t2" week = [spelling; Sample.algebra; Sample.lab].
Proof.
  assert (Hnd : NoDup (task_id <$> week)) by decide_it.
  assert (Hi : week !! 2%nat = Some Sample.essay) by evaluate.
  split; [exact Hnd|]. split; [exact Hi|].
  exact (proj1 (removeTask_removes_exactly week 2 _ Hnd Hi)).
Defined.


End MoreRuns.


(** ** What holds in every reachable session *)

Section ReachableFacts.
Import Focus Events Fixture.

Lemma timerEffect_settles (s : Session) :
  0 ≤ timeLeft s ≤ totalTime s → estimatesNonNegative (tasks s) →
  (∀ t, currentTask s = Some t → prevTaskIdRef s = Some (task_id t)) →
  settled (timerEffect s).
Proof.
  intros Hrange Hest Hprev. unfold timerEffect.
  destruct (intervalArmed s) eqn:Harmed.
  - unfold intervalArmed in Harmed.
    apply andb_true_iff in Harmed as [Harmed _].
    apply andb_true_iff in Harmed as [_ Hpos]. apply Z.ltb_lt in Hpos.
    repeat split; try assumption; lia.
  - destruct ((timeLeft s =? 0) && hasCurrentTask s) eqn:Hzero.
    + repeat split; cbn [timeLeft totalTime tasks isPlaying]; try assumption;
        lia.
    + repeat split; try assumption; try lia.
      intros Hhas Hplay. unfold intervalArmed in Harmed.
      rewrite Hhas, Hplay in Harmed. rewrite Hhas in Hzero.
      rewrite andb_true_r in Harmed, Hzero. cbn in Harmed.
      apply Z.ltb_ge in Harmed. apply Z.eqb_neq in Hzero. lia.
Qed.

Lemma estimates_handleCompleteTask (k : string) (ts : list Task) :
  estimatesNonNegative ts → estimatesNonNegative (handleCompleteTask k ts).
Proof.
  unfold estimatesNonNegative, handleCompleteTask. intros Hall.
  apply Forall_forall. intros t' Hin. apply list_elem_of_fmap in Hin as (t & -> & Ht).
  pose proof (proj1 (Forall_forall _ _) Hall t Ht) as Hnn.
  now destruct (String.eqb _ _).
Qed.

Lemma taskEffect_settles (s : Session) :
  0 ≤ timeLeft s ≤ totalTime s → estimatesNonNegative (tasks s) →
  settled (timerEffect (taskEffect s)).
Proof.
  intros Hrange Hest. unfold taskEffect.
  destruct (currentTask s) as [t|] eqn:Hcur.
  - destruct (decide (prevTaskIdRef s = Some (task_id t))) as [Hsame|Hnew].
    + apply timerEffect_settles; try assumption.
      intros t' Ht'. congruence.
    + apply timerEffect_settles; cbn [timeLeft totalTime tasks prevTaskIdRef].
      * assert (Hin : t ∈ tasks s).
        { unfold currentTask, pendingTasks in Hcur.
          apply head_Some_elem_of in Hcur.
          now apply list_elem_of_filter in Hcur as [_ Hin]. }
        pose proof (proj1 (Forall_forall _ _) Hest t Hin) as Hnn.
        cbn beta in Hnn. lia.
      * exact Hest.
      * intros t' Ht'. unfold currentTask in Ht', Hcur. cbn [tasks] in Ht'. congruence.
  - apply timerEffect_settles; try assumption.
    intros t' Ht'. congruence.
Qed.

Lemma timerEffectOn_fields (r x : Session) :
  timeLeft (timerEffectOn r x) = timeLeft x ∧
  totalTime (timerEffectOn r x) = totalTime x ∧
  tasks (timerEffectOn r x) = tasks x ∧
  prevTaskIdRef (timerEffectOn r x) = prevTaskIdRef x.
Proof.
  unfold timerEffectOn. destruct (intervalArmed r); [now idtac|].
  destruct (_ && _); now idtac.
Qed.

Lemma taskEffect_ready (s : Session) :
  0 ≤ timeLeft s ≤ totalTime s → estimatesNonNegative (tasks s) →
  0 ≤ timeLeft (taskEffect s) ≤ totalTime (taskEffect s) ∧
  tasks (taskEffect s) = tasks s ∧
  (∀ t, currentTask s = Some t → prevTaskIdRef (taskEffect s) = Some (task_id t)).
Proof.
  intros Hrange Hest. unfold taskEffect.
  destruct (currentTask s) as [t|] eqn:Hcur; [|split_and!; (lia || done)].
  destruct (decide (prevTaskIdRef s = Some (task_id t))) as [Hsame|Hnew].
  - split_and!; try lia; [reflexivity|]. intros t' Ht'. congruence.
  - cbn [timeLeft totalTime tasks prevTaskIdRef].
    assert (Hin : t ∈ tasks s).
    { unfold currentTask, pendingTasks in Hcur.
      apply head_Some_elem_of in Hcur.
      now apply list_elem_of_filter in Hcur as [_ Hin]. }
    pose proof (proj1 (Forall_forall _ _) Hest t Hin) as Hnn.
    cbn beta in Hnn. split_and!; try lia; [reflexivity|].
    intros t' Ht'. congruence.
Qed.

Lemma commitNewTask_settles (r : Session) :
  0 ≤ timeLeft r ≤ totalTime r → estimatesNonNegative (tasks r) →
  settled (commitNewTask r).
Proof.
  intros Hrange Hest.
  destruct (taskEffect_ready r Hrange Hest) as (Hr & Hts & Hprev).
  destruct (timerEffectOn_fields r (taskEffect r)) as (Hl & Ht & Hk & Hp).
  unfold commitNewTask. apply timerEffect_settles.
  - rewrite Hl, Ht. exact Hr.
  - rewrite Hk, Hts. exact Hest.
  - intros t Hcur. rewrite Hp. apply Hprev.
    unfold currentTask in *. now rewrite Hk, Hts in Hcur.
Qed.

Lemma handle_settled (s : Session) (e : Event) : settled s → settled (handle s e).
Proof.
  intros Hs. pose proof Hs as (Hrange & Hest & Hplay & Hprev).
  destruct e as [| | stepId | | k uuid generated]; cbn [handle].
  - unfold tick. destruct (intervalArmed s) eqn:Harmed; [|exact Hs].
    unfold intervalArmed in Harmed.
    apply andb_true_iff in Harmed as [Harmed _].
    apply andb_true_iff in Harmed as [_ Hpos]. apply Z.ltb_lt in Hpos.
    apply timerEffect_settles; cbn [timeLeft totalTime tasks prevTaskIdRef];
      [lia | exact Hest | exact Hprev].
  - unfold togglePlay.
    apply timerEffect_settles; cbn [timeLeft totalTime tasks prevTaskIdRef];
      assumption.
  - exact Hs.
  - unfold completeCurrent. destruct (currentTask s) as [t|] eqn:Hcur; [|exact Hs].
    apply commitNewTask_settles; cbn [timeLeft totalTime tasks prevTaskIdRef].
    + exact Hrange.
    + now apply estimates_handleCompleteTask.
  - unfold stepsArrive. destruct (inFlight s !! k); exact Hs.
Qed.

Lemma mount_settled (ts : list Task) : estimatesNonNegative ts → settled (mount ts).
Proof.
  intros Hest. unfold mount. apply taskEffect_settles; [|exact Hest].
  unfold initialState. cbn [timeLeft totalTime].
  destruct (head (pendingTasks ts)) as [t|] eqn:Hhead; [|lia].
  assert (Hin : t ∈ ts).
  { apply head_Some_elem_of in Hhead.
    now apply list_elem_of_filter in Hhead as [_ Hin]. }
  pose proof (proj1 (Forall_forall _ _) Hest t Hin) as Hnn.
  cbn beta in Hnn. lia.
Qed.

(** X26. When no estimate of the list is negative, every session reached
    from entering focus mode by ticks, presses of the play and Done buttons,
    clicks on steps and arrivals of generated steps, in any order, has a
    remaining time between zero and its total time; when it is playing on a
    current task it has time left, so its interval is installed; and its
    ref names the current task, so the task effect has nothing to reset. *)
Theorem reachable_sessions_are_settled (ts : list Task) (events : list Event) :
  estimatesNonNegative ts →
  0 ≤ timeLeft (run ts events) ≤ totalTime (run ts events) ∧
  (hasCurrentTask (run ts events) = true → isPlaying (run ts events) = true →
   intervalArmed (run ts events) = true) ∧
  taskEffect (run ts events) = run ts events.
Proof.
  intros Hest.
  assert (Hinv : settled (run ts events)).
  { unfold run. generalize (mount_settled ts Hest). generalize (mount ts).
    induction events as [|e events IH]; intros s Hs; [exact Hs|].
    cbn [foldl]. apply IH. now apply handle_settled. }
  destruct Hinv as (Hrange & _ & Hplay & Hprev). split_and!; try lia.
  - intros Hhas Hplaying. unfold intervalArmed. rewrite Hhas, Hplaying.
    pose proof (Hplay Hhas Hplaying) as Hpos. apply Z.ltb_lt in Hpos.
    now rewrite Hpos.
  - unfold taskEffect. destruct (currentTask (run ts events)) as [t|] eqn:Hcur;
      [|reflexivity].
    rewrite (Hprev t eq_refl).
    destruct (decide (Some (task_id t) = Some (task_id t))); [reflexivity | congruence].
Qed.

End ReachableFacts.

Section ReachableRun.
Import Focus Events Fixture.

Lemma reachable_sessions_are_settled_witness :
  estimatesNonNegative week ∧
  0 ≤ timeLeft (run week [Tick; PlayPressed; DonePressed; Tick; PlayPressed])
    ≤ totalTime (run week [Tick; PlayPressed; DonePressed; Tick; PlayPressed]).
Proof.
  assert (Hest : estimatesNonNegative week).
  { repeat (apply Forall_cons_2; [vm_compute; discriminate|]). apply Forall_nil_2. }
  split; [exact Hest|].
  exact (proj1 (reachable_sessions_are_settled week
                  [Tick; PlayPressed; DonePressed; Tick; PlayPressed] Hest)).
Defined.

End ReachableRun.


(** ** Replies that arrive late, and subject texts *)

Section LateReplyFacts.
Context `{!LowerCase}.
Import Agent Spec Chat.

(** X27. The list stored when a reply is handled is computed from the list
    the message was sent with. When every keyword is unresolved on that
    list, the list of the moment is kept; otherwise the stored list is the
    outcome of the batch on the earlier list, whatever the list has become
    in the meantime. When the list has not changed in between, this is
    [handleSend]. *)
Theorem reply_is_applied_to_snapshot
    (text : option string) (calls : list FunctionCall)
    (snapshot current : list Task) :
  (Forall (unresolved snapshot) calls →
   receiveReply (AgentReplies text calls) snapshot current = current) ∧
  (¬ Forall (unresolved snapshot) calls →
   receiveReply (AgentReplies text calls) snapshot current
     = newTasks (runCalls (initLoop text snapshot) calls)) ∧
  receiveReply (AgentReplies text calls) snapshot snapshot
    = handleSend (AgentReplies text calls) snapshot.
Proof.
  unfold receiveReply, handleSend, processAgentCommand. cbn [updatedTasks].
  split_and!.
  - intros Hall.
    now rewrite (runCalls_unresolved (initLoop text snapshot) calls Hall).
  - intros Hsome.
    destruct (tasksModified (runCalls (initLoop text snapshot) calls)) eqn:Hmod;
      [reflexivity|].
    destruct Hsome. exact (proj1 (runCalls_modified_false _ _ Hmod)).
  - reflexivity.
Qed.

End LateReplyFacts.

Section SubjectTextFacts.
Import Dashboard.

Lemma lowerString_app (s t : string) :
  lowerString (s +:+ t) = lowerString s +:+ lowerString t.
Proof.
  induction s as [|c s IH]; [reflexivity|].
  rewrite append_String. cbn [lowerString]. rewrite append_String. now f_equal.
Qed.

(** X28. With the lower-casing of ASCII letters, a subject text that
    contains the word math in any mix of upper and lower case, at any
    place, is mapped to the Math subject, whatever else it contains. *)
Theorem math_anywhere_is_MATH (pre word post : string) :
  lowerString word = "math" →
  @mapSubject asciiLowerCase (pre +:+ word +:+ post) = MATH.
Proof.
  intros Hword. unfold mapSubject.
  change (@toLowerCase asciiLowerCase) with lowerString.
  assert (Hin : includes (lowerString (pre +:+ word +:+ post)) "math" = true).
  { apply includes_true_iff. exists (lowerString pre), (lowerString post).
    now rewrite !lowerString_app, Hword. }
  cbv zeta. now rewrite Hin.
Qed.

Lemma math_anywhere_is_MATH_witness :
  lowerString "MaTh" = "math" ∧
  @mapSubject asciiLowerCase ("Applied " +:+ "MaTh" +:+ " and art") = MATH.
Proof.
  assert (Hword : lowerString "MaTh" = "math") by (vm_compute; reflexivity).
  split; [exact Hword|].
  exact (math_anywhere_is_MATH "Applied " "MaTh" " and art" Hword).
Defined.

End SubjectTextFacts.
